(** * EduSphere quiz: keyword auto-grading and PDF question extraction

    A shallow embedding of [src/services/autoGrading.ts] and of the two
    revisions of [src/services/realPdfParser.ts] (the page-image parser and
    the whole-document text parser), with the properties of the
    specification stated over it; and of their callers, the import form
    and the grading, shuffling and timer of
    [src/components/quiz/QuizTaking.tsx].

    Conventions of the embedding.
    - A JavaScript string is a [string]: a sequence of code units, each an
      [ascii] read as the code point U+0000..U+00FF.  The built-ins used by
      the sources ([toLowerCase], [trim], [includes], [split], [match],
      [replace]) are written out below for that range.
    - A JavaScript number is a rational [Q]: every finite double is one,
      comparisons are exact, and arithmetic is the exact arithmetic that
      IEEE doubles approximate; NaN and the infinities are not
      represented.  Integer-valued fields ([order_index], [points]) are
      in [Z].
    - Regular expressions are abstract syntax trees run by a backtracking
      matcher written after the ECMAScript pattern semantics. *)

From Stdlib Require Import QArith Qround.
From stdpp Require Import gmap strings sorting.
From Stdlib Require Import Ascii String DecimalString.
From Stdlib Require DecimalN DecimalPos.
Local Open Scope string_scope.
Local Open Scope list_scope.

(** ** JavaScript strings *)

Module JSString.

Definition code (c : ascii) : N := N_of_ascii c.

Definition inRange (lo hi : N) (c : ascii) : bool :=
  ((lo <=? code c) && (code c <=? hi))%N.

(** [WhiteSpace] and [LineTerminator] code points below U+0100: TAB, LF,
    VT, FF, CR, SP and NBSP.  This is both the class [\s] and the set
    that [trim] strips. *)
Definition isSpace (c : ascii) : bool :=
  (inRange 9 13 c || (code c =? 32) || (code c =? 160))%N.

Definition isLineTerminator (c : ascii) : bool :=
  ((code c =? 10) || (code c =? 13))%N.

Definition isDigit (c : ascii) : bool := inRange 48 57 c.

(** The class [\w]: [A-Za-z0-9_]. *)
Definition isWord (c : ascii) : bool :=
  (inRange 65 90 c || inRange 97 122 c || isDigit c || (code c =? 95))%N.

Definition shift (c : ascii) (d : Z) : ascii :=
  ascii_of_N (Z.to_N (Z.of_N (code c) + d)).

(** Upper-case letters of U+0000..U+00FF: A-Z and U+00C0..U+00DE without
    the multiplication sign U+00D7. *)
Definition isUpper (c : ascii) : bool :=
  (inRange 65 90 c || (inRange 192 222 c && negb (code c =? 215)))%N.

(** Lower-case letters whose upper-case form is again below U+0100. *)
Definition isLower (c : ascii) : bool :=
  (inRange 97 122 c || (inRange 224 254 c && negb (code c =? 247)))%N.

Definition lowerChar (c : ascii) : ascii :=
  if isUpper c then shift c 32 else c.

(** U+00B5, U+00DF and U+00FF have upper-case forms outside the range
    (or longer than one unit); they are left unchanged here.  The one
    call site applies [toUpperCase] to a letter matched by [[A-D]]. *)
Definition upperChar (c : ascii) : ascii :=
  if isLower c then shift c (-32) else c.

Fixpoint mapChars (f : ascii -> ascii) (s : string) : string :=
  match s with
  | EmptyString => EmptyString
  | String c s' => String (f c) (mapChars f s')
  end.

Definition toLowerCase : string -> string := mapChars lowerChar.
Definition toUpperCase : string -> string := mapChars upperChar.

Fixpoint trimStart (s : string) : string :=
  match s with
  | EmptyString => EmptyString
  | String c s' => if isSpace c then trimStart s' else s
  end.

Fixpoint trimEnd (s : string) : string :=
  match s with
  | EmptyString => EmptyString
  | String c s' =>
      match trimEnd s' with
      | EmptyString => if isSpace c then EmptyString else String c EmptyString
      | t => String c t
      end
  end.

Definition trim (s : string) : string := trimEnd (trimStart s).

(** [s.includes(t)] *)
Fixpoint includes (s t : string) : bool :=
  if String.prefix t s then true
  else match s with
       | EmptyString => false
       | String _ s' => includes s' t
       end.

(** [s.split(sep)] for a string separator.  [skip] counts the units of a
    separator still to be passed over, [cur] is the piece being built. *)
Fixpoint splitFrom (sep s : string) (skip : nat) (cur : string) : list string :=
  match s with
  | EmptyString => [cur]
  | String c s' =>
      match skip with
      | S k => splitFrom sep s' k cur
      | O =>
          if String.prefix sep s
          then cur :: splitFrom sep s' (String.length sep - 1) EmptyString
          else splitFrom sep s' 0 (cur +:+ String c EmptyString)
      end
  end.

Definition split (s sep : string) : list string :=
  match sep with
  | EmptyString => (fun c => String c EmptyString) <$> list_ascii_of_string s
  | _ => splitFrom sep s 0 EmptyString
  end.

(** [arr.join(sep)] *)
Fixpoint join (sep : string) (l : list string) : string :=
  match l with
  | [] => EmptyString
  | [x] => x
  | x :: l' => x +:+ sep +:+ join sep l'
  end.

(** [s.substring(i, j)] for [i <= j]. *)
Definition slice (s : string) (i j : nat) : string :=
  String.substring i (j - i) s.

(** [parseInt] on a string of decimal digits. *)
Fixpoint digitsValue (acc : N) (s : string) : N :=
  match s with
  | EmptyString => acc
  | String c s' =>
      if isDigit c then digitsValue (10 * acc + (code c - 48))%N s' else acc
  end.

Definition parseInt (s : string) : Z := Z.of_N (digitsValue 0 s).

(** Decimal rendering of a number in a template literal. *)
Definition ofZ (z : Z) : string :=
  match z with
  | Z0 => "0"
  | Zpos p => NilZero.string_of_uint (Pos.to_uint p)
  | Zneg p => "-" +:+ NilZero.string_of_uint (Pos.to_uint p)
  end.

End JSString.

(** ** Regular expressions

    The fragment of ECMAScript patterns used by the two services, and a
    backtracking matcher that follows the pattern semantics of ECMA-262
    (22.2.2): a matcher takes a state and a continuation, alternatives are
    tried left to right, quantifiers are greedy or lazy and refuse empty
    iterations, a lookahead keeps the captures and restores the position. *)

Module RegExp.
Import JSString.

Inductive ClassAtom : Type :=
| CChar (c : ascii)            (* a *)
| CRange (lo hi : ascii)       (* a-z *)
| CDigit                       (* \d *)
| CSpace                       (* \s *)
| CWord.                       (* \w *)

Inductive Pattern : Type :=
| Eps                                             (* empty alternative *)
| Chr (c : ascii)                                 (* literal unit *)
| Dot                                             (* . *)
| Class (negated : bool) (atoms : list ClassAtom) (* [..], [^..], \d \s \w *)
| Seq (r1 r2 : Pattern)
| Alt (r1 r2 : Pattern)                           (* r1|r2 *)
| Quant (lo : nat) (hi : option nat) (greedy : bool) (r : Pattern)
| Group (n : nat) (r : Pattern)                   (* n-th capturing ( ) *)
| Lookahead (r : Pattern)                         (* (?=r) *)
| Bol                                             (* ^ *)
| Eol.                                            (* $ *)

Record Flags : Type := mkFlags
  { global : bool; ignoreCase : bool; multiline : bool; dotAll : bool }.

Record t : Type := mk { source : Pattern; flags : Flags }.

(** Readable constructors for the literals of the sources. *)
Definition star r := Quant 0 None true r.
Definition plus r := Quant 1 None true r.
Definition opt r := Quant 0 (Some 1) true r.
Definition lazyStar r := Quant 0 None false r.
Definition lazyPlus r := Quant 1 None false r.
Definition digit := Class false [CDigit].
Definition space := Class false [CSpace].
Definition oneOf (atoms : list ClassAtom) := Class false atoms.
Definition noneOf (atoms : list ClassAtom) := Class true atoms.
Fixpoint lit (s : string) : Pattern :=
  match s with
  | EmptyString => Eps
  | String c EmptyString => Chr c
  | String c s' => Seq (Chr c) (lit s')
  end.
Fixpoint seqs (rs : list Pattern) : Pattern :=
  match rs with
  | [] => Eps
  | [r] => r
  | r :: rs' => Seq r (seqs rs')
  end.
Fixpoint alts (rs : list Pattern) : Pattern :=
  match rs with
  | [] => Eps
  | [r] => r
  | r :: rs' => Alt r (alts rs')
  end.

Definition noFlags := mkFlags false false false false.
Definition flag_g := mkFlags true false false false.
Definition flag_i := mkFlags false true false false.
Definition flag_m := mkFlags false false true false.
Definition flag_s := mkFlags false false false true.

(** The capturing groups inside a pattern: a quantifier clears them at
    the start of every iteration. *)
Fixpoint groupsOf (r : Pattern) : list nat :=
  match r with
  | Seq r1 r2 | Alt r1 r2 => groupsOf r1 ++ groupsOf r2
  | Quant _ _ _ r1 | Lookahead r1 => groupsOf r1
  | Group n r1 => n :: groupsOf r1
  | _ => []
  end.

Record MatchState : Type :=
  mkState { endIndex : nat; captures : gmap nat string }.

Definition Continuation : Type := MatchState -> option MatchState.
Definition Matcher : Type := MatchState -> Continuation -> option MatchState.

(** [Canonicalize] without the [u] flag: the upper-case form when it is
    a single unit, except that a unit from U+0080 on never folds to
    ASCII.  The result is a code point, since U+00B5 and U+00FF fold
    outside the range. *)
Definition canonicalize (fl : Flags) (c : ascii) : N :=
  if ignoreCase fl then
    if isLower c then (code c - 32)%N
    else if (code c =? 181)%N then 924%N
    else if (code c =? 255)%N then 376%N
    else code c
  else code c.

Definition atomHas (a : ClassAtom) (c : ascii) : bool :=
  match a with
  | CChar x => (code x =? code c)%N
  | CRange lo hi => inRange (code lo) (code hi) c
  | CDigit => isDigit c
  | CSpace => isSpace c
  | CWord => isWord c
  end.

Definition setHas (atoms : list ClassAtom) (c : ascii) : bool :=
  existsb (fun a => atomHas a c) atoms.

Definition allUnits : list ascii := ascii_of_nat <$> seq 0 256.

(** Membership of [c] in a character set under the flags: some member of
    the set has the canonical form of [c]. *)
Definition setMatches (fl : Flags) (atoms : list ClassAtom) (c : ascii) : bool :=
  if ignoreCase fl
  then existsb (fun a => setHas atoms a
                         && (canonicalize fl a =? canonicalize fl c)%N) allUnits
  else setHas atoms c.

Definition clearCaptures (parens : list nat) (caps : gmap nat string)
  : gmap nat string :=
  foldr delete caps parens.

Section Matching.
Variable input : string.
Variable fl : Flags.

Definition inputLength : nat := String.length input.

(** [CharacterSetMatcher]: consume one unit accepted by [accepts]. *)
Definition unitMatcher (accepts : ascii -> bool) : Matcher :=
  fun x c =>
    match String.get (endIndex x) input with
    | Some ch =>
        if accepts ch
        then c (mkState (S (endIndex x)) (captures x))
        else None
    | None => None
    end.

(** [RepeatMatcher].  An iteration that is not required and consumes
    nothing fails, so [lo] plus the number of units left bounds the
    depth; [fuel] is set to one more than that by [matcher]. *)
Fixpoint repeatMatcher (fuel : nat) (m : Matcher) (lo : nat) (hi : option nat)
    (greedy : bool) (parens : list nat) (x : MatchState) (c : Continuation)
  : option MatchState :=
  match fuel with
  | O => None
  | S fuel' =>
      match hi with
      | Some O => c x
      | _ =>
          let d : Continuation := fun y =>
            if ((lo =? 0) && (endIndex y =? endIndex x))%nat then None
            else repeatMatcher fuel' m (pred lo) (pred <$> hi) greedy parens y c in
          let xr := mkState (endIndex x) (clearCaptures parens (captures x)) in
          if negb (lo =? 0)%nat then m xr d
          else if negb greedy then
                 match c x with
                 | Some z => Some z
                 | None => m xr d
                 end
               else
                 match m xr d with
                 | Some z => Some z
                 | None => c x
                 end
      end
  end.

Definition atLineStart (e : nat) : bool :=
  match e with
  | O => true
  | S e' =>
      multiline fl &&
      match String.get e' input with
      | Some ch => isLineTerminator ch
      | None => false
      end
  end.

Definition atLineEnd (e : nat) : bool :=
  match String.get e input with
  | None => true
  | Some ch => multiline fl && isLineTerminator ch
  end.

Fixpoint matcher (r : Pattern) : Matcher :=
  match r with
  | Eps => fun x c => c x
  | Chr a =>
      unitMatcher (fun ch => (canonicalize fl a =? canonicalize fl ch)%N)
  | Dot =>
      unitMatcher (fun ch => dotAll fl || negb (isLineTerminator ch))
  | Class negated atoms =>
      unitMatcher (fun ch => xorb negated (setMatches fl atoms ch))
  | Seq r1 r2 =>
      fun x c => matcher r1 x (fun y => matcher r2 y c)
  | Alt r1 r2 =>
      fun x c =>
        match matcher r1 x c with
        | Some z => Some z
        | None => matcher r2 x c
        end
  | Quant lo hi greedy r1 =>
      fun x c =>
        repeatMatcher (S (lo + (inputLength - endIndex x)))
                      (matcher r1) lo hi greedy (groupsOf r1) x c
  | Group n r1 =>
      fun x c =>
        matcher r1 x (fun y =>
          c (mkState (endIndex y)
               (<[n := slice input (endIndex x) (endIndex y)]> (captures y))))
  | Lookahead r1 =>
      fun x c =>
        match matcher r1 x Some with
        | Some y => c (mkState (endIndex x) (captures y))
        | None => None
        end
  | Bol => fun x c => if atLineStart (endIndex x) then c x else None
  | Eol => fun x c => if atLineEnd (endIndex x) then c x else None
  end.

(** One attempt at position [i]. *)
Definition matchAt (r : Pattern) (i : nat) : option MatchState :=
  matcher r (mkState i ∅) Some.

(** Two continuations agree from [x] on when they agree on every state a
    matcher started at [x] can reach: not before [x], and inside the
    input unless no unit was consumed. *)
Definition agree (x : MatchState) (c c' : Continuation) : Prop :=
  forall y, (endIndex x <= endIndex y)%nat ->
            (endIndex y <= String.length input)%nat \/ endIndex y = endIndex x ->
            c y = c' y.

(** A matcher is local when it calls its continuation on such states
    only. *)
Definition localMatcher (m : Matcher) : Prop :=
  forall x c c', agree x c c' -> m x c = m x c'.

End Matching.

(** The result array of [exec]: [index], the end of the match, and the
    substrings of the groups, group 0 being the whole match. *)
Record MatchResult : Type :=
  mkResult { index : nat; lastIndex : nat; groups : gmap nat string }.

(** [m[n]], undefined when group [n] took no part in the match. *)
Definition group (n : nat) (m : MatchResult) : option string := groups m !! n.

(** [m[n]] for a group that takes part in every match of its pattern. *)
Definition text (n : nat) (m : MatchResult) : string := default "" (group n m).

(** [RegExpBuiltinExec] from [start]: the first position at or after
    [start] where the pattern matches; only [start] itself when
    [sticky]. *)
Fixpoint execFrom (re : t) (s : string) (sticky : bool) (fuel start : nat)
  : option MatchResult :=
  if (String.length s <? start)%nat then None
  else
    match matchAt s (flags re) (source re) start with
    | Some y =>
        Some (mkResult start (endIndex y)
                (<[0 := slice s start (endIndex y)]> (captures y)))
    | None =>
        if sticky then None
        else match fuel with
             | O => None
             | S fuel' => execFrom re s sticky fuel' (S start)
             end
    end.

Definition exec (re : t) (s : string) (start : nat) : option MatchResult :=
  execFrom re s false (String.length s - start) start.

Definition execSticky (re : t) (s : string) (start : nat) : option MatchResult :=
  execFrom re s true 0 start.

(** [s.match(re)] for a pattern without the [g] flag. *)
Definition match_ (s : string) (re : t) : option MatchResult := exec re s 0.

(** All matches found by the loop of [RegExp.prototype[Symbol.replace]]:
    after an empty match the search resumes one unit further. *)
Fixpoint allMatches (re : t) (s : string) (fuel start : nat) : list MatchResult :=
  match fuel with
  | O => []
  | S fuel' =>
      match exec re s start with
      | None => []
      | Some m =>
          if global (flags re)
          then m :: allMatches re s fuel'
                      (if (lastIndex m =? index m)%nat then S (lastIndex m) else lastIndex m)
          else [m]
      end
  end.

Fixpoint substitute (s replacement : string) (ms : list MatchResult) (next : nat)
  : string :=
  match ms with
  | [] => slice s next (String.length s)
  | m :: ms' =>
      if (next <=? index m)%nat
      then slice s next (index m) +:+ replacement
           +:+ substitute s replacement ms' (lastIndex m)
      else substitute s replacement ms' next
  end.

(** [s.replace(re, replacement)] for a replacement text without [$]. *)
Definition replace (s : string) (re : t) (replacement : string) : string :=
  substitute s replacement (allMatches re s (S (String.length s)) 0) 0.

(** [s.split(re)] for a separator pattern without capturing groups:
    [p] is the start of the current piece, [q] the position tried. *)
Fixpoint splitLoop (re : t) (s : string) (fuel p q : nat) : list string :=
  match fuel with
  | O => [slice s p (String.length s)]
  | S fuel' =>
      if (String.length s <=? q)%nat then [slice s p (String.length s)]
      else
        match execSticky re s q with
        | None => splitLoop re s fuel' p (S q)
        | Some m =>
            let e := Nat.min (lastIndex m) (String.length s) in
            if (e =? p)%nat then splitLoop re s fuel' p (S q)
            else slice s p q :: splitLoop re s fuel' e e
        end
  end.

Definition split (s : string) (re : t) : list string :=
  match s with
  | EmptyString =>
      match execSticky re s 0 with
      | Some _ => []
      | None => [s]
      end
  | _ => splitLoop re s (2 * String.length s) 0 0
  end.

(** [re.test(s)], also the truth value of [s.match(re)]. *)
Definition test (re : t) (s : string) : bool :=
  match match_ s re with Some _ => true | None => false end.

End RegExp.

(** ** JavaScript numbers *)

Module JSNumber.
Local Open Scope Q_scope.

(** [x > y] and [x >= y], [x <= y] on numbers. *)
Definition gtb (x y : Q) : bool := negb (Qle_bool x y).
Definition geb (x y : Q) : bool := Qle_bool y x.
Definition leb (x y : Q) : bool := Qle_bool x y.

(** A number is falsy when it is zero. *)
Definition truthy (x : Q) : bool := negb (Qeq_bool x 0).

(** [Math.round]: the nearest integer, a tie going up. *)
Definition round (x : Q) : Q := inject_Z (Qfloor (x + (1 # 2))).

End JSNumber.

(** ** src/services/autoGrading.ts *)

Module AutoGrading.
Import JSString.
Local Open Scope Q_scope.

Record KeywordMatch : Type := mkKeywordMatch
  { keyword : string; found : bool; weight : Q }.

Record GradingResult : Type := mkGradingResult
  { score : Q;
    maxScore : Q;
    percentage : Q;
    matchedKeywords : list KeywordMatch }.

(** [/[^\w\s]/g] *)
Definition punctuation : RegExp.t :=
  RegExp.mk (RegExp.noneOf [RegExp.CWord; RegExp.CSpace]) RegExp.flag_g.

(** [/\s+/g] *)
Definition whitespaceRun : RegExp.t :=
  RegExp.mk (RegExp.plus RegExp.space) RegExp.flag_g.

Definition normalizeText (text : string) : string :=
  trim
    (RegExp.replace
       (RegExp.replace (toLowerCase text) punctuation " ")
       whitespaceRun " ").

Definition containsKeyword (answer keyword : string) : bool :=
  let normalizedAnswer := normalizeText answer in
  let normalizedKeyword := normalizeText keyword in
  (* Check for exact phrase match *)
  if includes normalizedAnswer normalizedKeyword then true
  else
    (* Check if all words from keyword appear in answer *)
    let keywordWords := split normalizedKeyword " " in
    let answerWords := split normalizedAnswer " " in
    let allWordsPresent :=
      forallb (fun keywordWord =>
        existsb (fun answerWord =>
          includes answerWord keywordWord || includes keywordWord answerWord)
          answerWords)
        keywordWords in
    allWordsPresent.

(** [keywordWeightage[keyword] || 1]: an absent or zero entry counts 1.
    The record is the finite map of its own entries. *)
Definition weightOf (keywordWeightage : gmap string Q) (keyword : string) : Q :=
  match keywordWeightage !! keyword with
  | Some w => if JSNumber.truthy w then w else 1
  | None => 1
  end.

(** The variables of the grading loop. *)
Record Tally : Type := mkTally
  { matches : list KeywordMatch;
    earnedPoints : Q;
    maxPossiblePoints : Q }.

(** One iteration of [for (const keyword of expectedKeywords)]. *)
Definition evaluateKeyword (studentAnswer : string)
    (keywordWeightage : gmap string Q) (st : Tally) (keyword : string) : Tally :=
  let weight := weightOf keywordWeightage keyword in
  let found := containsKeyword studentAnswer keyword in
  {| maxPossiblePoints := maxPossiblePoints st + weight;
     earnedPoints := if found then earnedPoints st + weight else earnedPoints st;
     matches := matches st ++ [mkKeywordMatch keyword found weight] |}.

(** The guard reads [!studentAnswer || !expectedKeywords ||
    expectedKeywords.length === 0]; for arguments of the declared types
    its second test never holds. *)
Definition gradeShortAnswer (studentAnswer : string)
    (expectedKeywords : list string) (keywordWeightage : gmap string Q)
    (totalPoints : Q) : GradingResult :=
  if (String.eqb studentAnswer "" || (List.length expectedKeywords =? 0)%nat)%bool then
    {| score := 0;
       maxScore := totalPoints;
       percentage := 0;
       matchedKeywords := [] |}
  else
    let st := foldl (evaluateKeyword studentAnswer keywordWeightage)
                    (mkTally [] 0 0) expectedKeywords in
    (* Normalize score to match question's total points *)
    let normalizedScore :=
      if JSNumber.gtb (maxPossiblePoints st) 0
      then (earnedPoints st / maxPossiblePoints st) * totalPoints
      else 0 in
    {| score := JSNumber.round (normalizedScore * 100) / 100;
       maxScore := totalPoints;
       percentage :=
         if JSNumber.gtb (maxPossiblePoints st) 0
         then (earnedPoints st / maxPossiblePoints st) * 100
         else 0;
       matchedKeywords := matches st |}.

(** [reviewThreshold] defaults to 50 and is not read by the body. *)
Definition requiresManualReview (gradingResult : GradingResult)
    (reviewThreshold : option Q) : bool :=
  let reviewThreshold := default 50 reviewThreshold in
  (* Require review if score is in the middle range (40-60%) *)
  if JSNumber.geb (percentage gradingResult) 40
     && JSNumber.leb (percentage gradingResult) 60
  then true
  else false.

End AutoGrading.

(** ** Arrays *)

Module JSArray.

Section Sort.
Context {A : Type} (compareFn : A -> A -> Z).

(** [x] goes in front of the first element it does not exceed. *)
Fixpoint insert (x : A) (l : list A) : list A :=
  match l with
  | [] => [x]
  | y :: l' => if (compareFn x y <=? 0)%Z then x :: l else y :: insert x l'
  end.

(** [arr.sort(compareFn)]: the stable sort of ECMA-262 (23.1.3.30),
    written as an insertion sort from the right.  For a consistent
    comparator every stable sort returns this list. *)
Definition sort (l : list A) : list A := foldr insert [] l.
End Sort.

(** [x || d] on strings: the empty string and [undefined] are falsy. *)
Definition orElse (x : option string) (d : string) : string :=
  match x with
  | Some s => if String.eqb s "" then d else s
  | None => d
  end.

End JSArray.

(** ** The document source (pdfjs-dist) and the parser's records *)

Module Pdf.
Import JSString.

(** An item of [page.getTextContent()]: a text item carries [str], a
    marked-content item does not. *)
Inductive TextContentItem : Type :=
| TextItem (str : string)
| TextMarkedContent.

Definition Blob : Type := list Byte.byte.

(** A page: its text items and the PNG that [page.render] at scale 1.0
    followed by [canvas.toBlob] yields. *)
Record Page : Type := mkPage
  { textContent : list TextContentItem; raster : Blob }.

(** Pages 1 .. [numPages]. *)
Definition Document : Type := list Page.

Definition strOf (item : TextContentItem) : option string :=
  match item with
  | TextItem str => Some str
  | TextMarkedContent => None
  end.

(** [items.filter(item => 'str' in item).map(item => item.str).join(' ')] *)
Definition pageText (page : Page) : string :=
  join " " (omap strOf (textContent page)).

Inductive QuestionType : Type := multiple_choice.

Record ImageData : Type := mkImageData { blob : Blob; filename : string }.

Record ParsedQuestion : Type := mkParsedQuestion
  { question_text : string;
    question_type : QuestionType;
    options : list string;
    correct_answer : option string;     (* string | null *)
    points : Z;
    order_index : Z;
    has_image : bool;
    image_data : option ImageData }.

Record ParsedQuiz : Type := mkParsedQuiz
  { title : string;
    description : string;
    duration : Z;
    questions : list ParsedQuestion }.

(** [(a, b) => a.order_index - b.order_index] *)
Definition byOrderIndex (a b : ParsedQuestion) : Z :=
  (order_index a - order_index b)%Z.

(** [/\s+/g] *)
Definition whitespaceRun : RegExp.t :=
  RegExp.mk (RegExp.plus RegExp.space) RegExp.flag_g.

(** What one turn of a parsing loop leaves behind: the record pushed to
    [questions], if any, and the lines written with [console.warn]. *)
Record Turn : Type := mkTurn
  { pushed : option ParsedQuestion; warned : list string }.

Definition skip : Turn := mkTurn None [].

(** The loop over pages or blocks: [questions] and the console. *)
Definition runTurns {X : Type} (body : X -> Turn) (xs : list X)
  : list ParsedQuestion * list string :=
  foldl (fun acc x =>
           let t := body x in
           ((fst acc ++ option_list (pushed t))%list,
            (snd acc ++ warned t)%list))
        ([], []) xs.

End Pdf.

(** ** src/services/realPdfParser.ts, page-image revision

    [parseQuizFromPDF] reads one question per page, from page 2 on, and
    attaches the rendered page to the record. *)

Module RealPDFParser_PageImage.
Import JSString RegExp Pdf.

(** [/^\s*(\d+)\.\s*(R)$/] with [R] the pattern [.*] *)
Definition questionLine : RegExp.t :=
  mk (seqs [Bol; star space; Group 1 (plus digit); Chr "."; star space;
            Group 2 (star Dot); Eol]) noFlags.

(** [/^[A-D]\.\s/] *)
Definition optionLine : RegExp.t :=
  mk (seqs [Bol; oneOf [CRange "A" "D"]; Chr "."; space]) noFlags.

(** [/^\s*\d+\.\s/] *)
Definition numberedLine : RegExp.t :=
  mk (seqs [Bol; star space; plus digit; Chr "."; space]) noFlags.

(** [new RegExp(`${letter}\\\.\\s*([^A-D]*?)(?=${letter === 'D' ? '$' : '[A-D]\\.|$'})`, 's')],
    that is [L\.\s*([^A-D]*?)(?=[A-D]\.|$)], and [(?=$)] for D. *)
Definition optionRegex (letter : ascii) : RegExp.t :=
  mk (seqs [Chr letter; Chr "."; star space;
            Group 1 (lazyStar (noneOf [CRange "A" "D"]));
            Lookahead (if Ascii.eqb letter "D" then Eol
                       else Alt (Seq (oneOf [CRange "A" "D"]) (Chr ".")) Eol)])
     flag_s.

(** [/^\d+\./] *)
Definition leadingNumber : RegExp.t :=
  mk (seqs [Bol; plus digit; Chr "."]) noFlags.

(** [pageText.split('\n').map(line => line.trim()).filter(line => line.length > 0)] *)
Definition linesOf (pageText : string) : list string :=
  filter (fun line => line <> "") (trim <$> JSString.split pageText (String "010" "")).

(** The first loop: the first line that opens with a number, as
    [(questionNum, questionText, questionStartIndex)]. *)
Fixpoint findQuestion (lines : list string) (i : nat) : option (Z * string * nat) :=
  match lines with
  | [] => None
  | line :: rest =>
      match match_ line questionLine with
      | Some questionMatch =>
          Some (parseInt (text 1 questionMatch), trim (text 2 questionMatch), i)
      | None => findQuestion rest (S i)
      end
  end.

(** The second loop: lines are added until an option or another
    numbered line. *)
Fixpoint collectText (questionText : string) (lines : list string) : string :=
  match lines with
  | [] => questionText
  | line :: rest =>
      if test optionLine line || test numberedLine line then questionText
      else collectText (questionText +:+ " " +:+ line) rest
  end.

(** Extract options A, B, C, D. *)
Definition extractOptions (pageText : string) : list string :=
  foldl (fun options letter =>
           match match_ pageText (optionRegex letter) with
           | Some optionMatch =>
               let cleanOption :=
                 replace (trim (text 1 optionMatch)) whitespaceRun " " in
               if negb (String.eqb cleanOption "") && negb (test leadingNumber cleanOption)
               then options ++ [cleanOption]
               else options
           | None => options
           end)
        [] ["A"; "B"; "C"; "D"]%char.

(** The question detected on a page: its number and its text, or nothing
    when one of the two [continue] statements is taken. *)
Definition detect (page : Page) : option (Z * string) :=
  let lines := linesOf (pageText page) in
  match findQuestion lines 0 with
  | None => None
  | Some (questionNum, questionText, questionStartIndex) =>
      if (questionNum =? 0)%Z then None          (* !questionNum *)
      else
        let questionText :=
          trim (collectText questionText (drop (S questionStartIndex) lines)) in
        if String.eqb questionText "" then None  (* !questionText *)
        else Some (questionNum, questionText)
  end.

(** The body of the loop over pages. *)
Definition processPage (page : Page) : Turn :=
  match detect page with
  | None => skip
  | Some (questionNum, questionText) =>
      let options := extractOptions (pageText page) in
      {| warned :=
           if (List.length options =? 4)%nat then []
           else ["Question " +:+ ofZ questionNum +:+ ": Expected 4 options, found "
                 +:+ ofZ (Z.of_nat (List.length options))];
         pushed := Some
           {| question_text := questionText;
              question_type := multiple_choice;
              options := if (List.length options =? 4)%nat then options
                         else ["A"; "B"; "C"; "D"];  (* Fallback *)
              correct_answer := Some "";  (* Empty string to satisfy NOT NULL constraint *)
              points := 2;
              order_index := questionNum - 1;
              has_image := true;
              image_data := Some
                {| blob := raster page;
                   filename := "question_" +:+ ofZ questionNum +:+ ".png" |} |} |}
  end.

Definition noQuestions : string :=
  "No questions detected in the PDF. Ensure it has selectable text and clearly labeled options (A., B., C., D.).".

(** From [if (questions.length === 0)] to the end: the error thrown in
    the [try] block is caught and thrown again with a prefix. *)
Definition assemble (questions : list ParsedQuestion)
    (quizTitle quizDescription : option string) : string + ParsedQuiz :=
  if (List.length questions =? 0)%nat
  then inl ("Failed to parse PDF: " +:+ noQuestions)
  else inr {| title := JSArray.orElse quizTitle "Dummy-2 (Dallas ISD)";
              description := JSArray.orElse quizDescription
                               "Imported geometry assessment from Dallas ISD";
              duration := 90;
              questions := JSArray.sort byOrderIndex questions |}.

(** The questions gathered by the loop, which starts at page 2. *)
Definition extractQuestions (pdf : Document) : list ParsedQuestion * list string :=
  runTurns processPage (drop 1 pdf).

Definition parseQuizFromPDF (pdf : Document)
    (quizTitle quizDescription : option string) : string + ParsedQuiz :=
  assemble (fst (extractQuestions pdf)) quizTitle quizDescription.

End RealPDFParser_PageImage.

(** ** src/services/realPdfParser.ts, whole-document text revision

    [parseQuizFromPDF] joins the text of all pages, cuts it in front of
    every line that opens with a question number and reads question,
    options and answer out of each block. *)

Module RealPDFParser_Text.
Import JSString RegExp Pdf.

(** [allText += pageText + '\n'] over all pages *)
Definition allTextOf (pdf : Document) : string :=
  foldl (fun allText page => allText +:+ pageText page +:+ String "010" "") "" pdf.

(** [/(?=^\d+\.\s)/m] *)
Definition blockStart : RegExp.t :=
  mk (Lookahead (seqs [Bol; plus digit; Chr "."; space])) flag_m.

(** [/^(\d+)\./] *)
Definition blockNumber : RegExp.t :=
  mk (seqs [Bol; Group 1 (plus digit); Chr "."]) noFlags.

(** [/^\d+\.\s*(.+?)(?=\s*[A-D]\.|$)/s] *)
Definition questionTextRegex : RegExp.t :=
  mk (seqs [Bol; plus digit; Chr "."; star space; Group 1 (lazyPlus Dot);
            Lookahead (Alt (seqs [star space; oneOf [CRange "A" "D"]; Chr "."])
                           Eol)])
     flag_s.

Definition dotOrParen : Pattern := oneOf [CChar "."; CChar ")"].

(** [/[A][\.\)]\s*(.+?)(?=\s*[B][\.\)]|Answer|$)/s], and the same for B
    before C and for C before D. *)
Definition optionRegex (letter next : ascii) : RegExp.t :=
  mk (seqs [oneOf [CChar letter]; dotOrParen; star space; Group 1 (lazyPlus Dot);
            Lookahead (alts [seqs [star space; oneOf [CChar next]; dotOrParen];
                             lit "Answer";
                             Eol])])
     flag_s.

(** [/[D][\.\)]\s*(.+?)(?=\s*(?:Answer|Correct|\d+\.)|$)/s] *)
Definition optionDRegex : RegExp.t :=
  mk (seqs [oneOf [CChar "D"]; dotOrParen; star space; Group 1 (lazyPlus Dot);
            Lookahead (Alt (Seq (star space)
                                (alts [lit "Answer"; lit "Correct";
                                       Seq (plus digit) (Chr ".")]))
                           Eol)])
     flag_s.

(** [/(?:Answer|Correct)\s*:?\s*([A-D])/i] *)
Definition answerRegex : RegExp.t :=
  mk (seqs [alts [lit "Answer"; lit "Correct"]; star space; opt (Chr ":");
            star space; Group 1 (oneOf [CRange "A" "D"])])
     flag_i.

(** [block.match(re)?.[1]?.trim().replace(/\s+/g, ' ') || ''] *)
Definition optionText (block : string) (re : RegExp.t) : string :=
  match match_ block re with
  | Some m =>
      match group 1 m with
      | Some captured => replace (trim captured) whitespaceRun " "
      | None => ""
      end
  | None => ""
  end.

Definition optionsOf (block : string) : list string :=
  let optionA := optionText block (optionRegex "A" "B") in
  let optionB := optionText block (optionRegex "B" "C") in
  let optionC := optionText block (optionRegex "C" "D") in
  let optionD := optionText block optionDRegex in
  [optionA; optionB; optionC; optionD].

(** [answerLetter.charCodeAt(0) - 'A'.charCodeAt(0)] *)
Definition answerIndexOf (answerLetter : string) : Z :=
  match answerLetter with
  | String c _ => Z.of_N (code c) - 65
  | EmptyString => 0
  end.

(** Extract answer (look for "Answer: A" or "Answer:A" or "Correct: B"). *)
Definition answerOf (block : string) (options : list string) : string :=
  match match_ block answerRegex with
  | Some answerMatch =>
      let answerLetter := toUpperCase (text 1 answerMatch) in
      let answerIndex := answerIndexOf answerLetter in
      if ((0 <=? answerIndex) && (answerIndex <? Z.of_nat (List.length options)))%Z
      then nth (Z.to_nat answerIndex) options ""
      else ""
  | None => ""
  end.

(** The body of [for (const block of questionBlocks)]. *)
Definition processBlock (block : string) : Turn :=
  if String.eqb (trim block) "" then skip
  else
    (* Extract question number *)
    match match_ block blockNumber with
    | None => skip
    | Some numMatch =>
        let questionNum := text 1 numMatch in
        (* Extract question text (everything between number and first option) *)
        match match_ block questionTextRegex with
        | None => skip
        | Some questionTextMatch =>
            let questionText :=
              replace (trim (text 1 questionTextMatch)) whitespaceRun " " in
            let options := optionsOf block in
            (* Validate we got good data *)
            if String.eqb questionText ""
               || existsb (fun opt => String.eqb opt ""
                                      || (String.length opt <? 1)%nat) options
            then mkTurn None
                   ["Skipping question " +:+ questionNum +:+ " - incomplete data"]
            else
              let correctAnswer := answerOf block options in
              mkTurn
                (Some
                   {| question_text := questionText;
                      question_type := multiple_choice;
                      options := options;
                      (* Default to first option if no answer found *)
                      correct_answer := Some
                        (if String.eqb correctAnswer "" then nth 0 options ""
                         else correctAnswer);
                      points := 1;
                      order_index := parseInt questionNum - 1;
                      has_image := false;
                      image_data := None |})
                []
        end
    end.

(** First, split by question numbers. *)
Definition questionBlocksOf (allText : string) : list string :=
  RegExp.split allText blockStart.

(** The segmenter and the field extractor on a document text. *)
Definition extractFromText (allText : string) : list ParsedQuestion * list string :=
  runTurns processBlock (questionBlocksOf allText).

Definition noQuestions : string :=
  "No questions detected in the PDF. Ensure the PDF contains questions in format: "
  +:+ String "034" "1. Question text A. option B. option C. option D. option"
  +:+ String "034" "".

(** From [if (questions.length === 0)] to the end: the error thrown in
    the [try] block is caught and thrown again with a prefix. *)
Definition assemble (questions : list ParsedQuestion)
    (quizTitle quizDescription : option string) : string + ParsedQuiz :=
  if (List.length questions =? 0)%nat
  then inl ("Failed to parse PDF: " +:+ noQuestions)
  else inr {| title := JSArray.orElse quizTitle "Imported Quiz";
              description := JSArray.orElse quizDescription "Quiz imported from PDF";
              duration := 90;
              questions := JSArray.sort byOrderIndex questions |}.

Definition parseQuizFromPDF (pdf : Document)
    (quizTitle quizDescription : option string) : string + ParsedQuiz :=
  assemble (fst (extractFromText (allTextOf pdf))) quizTitle quizDescription.

End RealPDFParser_Text.

(** ** Sample documents *)

Module Scenarios.
Import Pdf.

Definition newline : string := String "010" "".

(** The text of the segmenter scenario, as one line. *)
Definition segmenterText : string :=
  "1. What is 2+2? A. 3 B. 4 C. 5 D. 6 Answer: B 2. Capital of France? A. Berlin B. Paris C. Rome D. Madrid Answer: B".

(** The same two questions, the second starting a new line. *)
Definition segmenterLines : string :=
  "1. What is 2+2? A. 3 B. 4 C. 5 D. 6 Answer: B" +:+ newline +:+
  "2. Capital of France? A. Berlin B. Paris C. Rome D. Madrid Answer: B".


(** A block with four options and no answer marker. *)
Definition noMarkerBlock : string :=
  "3. Which gas do plants absorb? A) Oxygen B) Nitrogen C) Helium D) Neon" +:+ newline.

(** The first bytes of a PNG file stand for a rendered page. *)
Definition png : Blob := [Byte.x89; Byte.x50; Byte.x4e; Byte.x47].

Definition coverPage : Page := mkPage [TextItem "Geometry assessment"] png.

Definition fourOptionPage : Page :=
  mkPage [TextItem "1. What is 2+2?"; TextItem "A. 3"; TextItem "B. 4";
          TextItem "C. 5"; TextItem "D. 6"] png.

Definition twoOptionPage : Page :=
  mkPage [TextItem "2. Which triangle is shown?"; TextMarkedContent;
          TextItem "A. x"; TextItem "B. y"] png.

Definition examPdf : Document := [coverPage; fourOptionPage; twoOptionPage].

End Scenarios.

(** ** src/services/realPdfParser.ts: storing a parsed quiz

    [uploadQuizImage] and [createQuizFromParsedData] are the same in both
    revisions.  The store is an outside service: what is embedded is what
    the two functions hand to it. *)

Module QuizCreation.
Import JSString.

(** [`quiz-${quizId}/question-${questionIndex}.png`], the name under which
    [uploadQuizImage] stores an image, with [upsert: true].  Its
    [filename] argument is not read. *)
Definition storagePath (quizId : string) (questionIndex : nat) : string :=
  "quiz-" +:+ quizId +:+ "/question-" +:+ ofZ (Z.of_nat questionIndex) +:+ ".png".

(** The row inserted in [quizzes]. *)
Record QuizInsert : Type := mkQuizInsert
  { title : string;
    description : string;
    duration : Z;
    status : string;
    password_protected : bool;
    access_password : option string;
    created_by : option string }.

(** [!!password] *)
Definition truthy (x : option string) : bool :=
  match x with
  | Some s => negb (String.eqb s "")
  | None => false
  end.

(** [isPublished] defaults to true. *)
Definition quizToInsert (parsedQuiz : Pdf.ParsedQuiz) (isPublished : option bool)
    (password : option string) (userId : option string) : QuizInsert :=
  {| title := Pdf.title parsedQuiz;
     description := Pdf.description parsedQuiz;
     duration := Pdf.duration parsedQuiz;
     status := if default true isPublished then "published" else "draft";
     password_protected := truthy password;
     access_password := password;
     created_by := userId |}.

Definition typeName (t : Pdf.QuestionType) : string :=
  match t with Pdf.multiple_choice => "multiple-choice" end.

(** A row inserted in [questions]. *)
Record QuestionInsert : Type := mkQuestionInsert
  { quiz_id : string;
    question_text : string;
    question_type : string;
    options : list string;
    correct_answer : string;
    points : Z;
    order_index : Z;
    has_image : bool;
    image_url : option string }.

(** Insert questions WITHOUT images first. *)
Definition questionsToInsert (quizId : string)
    (questions : list Pdf.ParsedQuestion) : list QuestionInsert :=
  (fun question =>
     {| quiz_id := quizId;
        question_text := Pdf.question_text question;
        question_type := typeName (Pdf.question_type question);
        options := Pdf.options question;
        correct_answer := JSArray.orElse (Pdf.correct_answer question) "";
        points := Pdf.points question;
        order_index := Pdf.order_index question;
        has_image := Pdf.has_image question;
        image_url := None  (* Will be updated after upload *) |})
  <$> questions.

(** What the insert returns with [.select('id, order_index')]. *)
Record InsertedQuestion : Type := mkInserted
  { id : string; inserted_order_index : Z }.

(** One callback of [parsedQuiz.questions.map(async (question, index) => ..)]:
    the update [(row id, image_url)] it sends, if any.  [uploadOk] tells
    whether the storage accepts a file name (a refusal is thrown by
    [uploadQuizImage] and caught here), [publicUrl] is [getPublicUrl]. *)
Definition imagePatch (uploadOk : string -> bool) (publicUrl : string -> string)
    (quizId : string) (insertedQuestions : list InsertedQuestion)
    (index : nat) (question : Pdf.ParsedQuestion) : option (string * string) :=
  match Pdf.has_image question, Pdf.image_data question with
  | true, Some _ =>
      match List.find (fun q => (inserted_order_index q =? Pdf.order_index question)%Z)
                      insertedQuestions with
      | None => None
      | Some insertedQuestion =>
          let fileName := storagePath quizId index in
          if uploadOk fileName
          then Some (id insertedQuestion, publicUrl fileName)
          else None
      end
  | _, _ => None
  end.

(** The updates sent by all callbacks, in the order of the questions. *)
Definition imagePatches (uploadOk : string -> bool) (publicUrl : string -> string)
    (quizId : string) (insertedQuestions : list InsertedQuestion)
    (questions : list Pdf.ParsedQuestion) : list (string * string) :=
  omap (fun x => x)
       (imap (imagePatch uploadOk publicUrl quizId insertedQuestions) questions).

End QuizCreation.

(** ** QuizImport.handleImport, the caller of [createQuizFromParsedData] *)

Module QuizImport.
Import JSString.

(** The form of the dialog. *)
Record Form : Type := mkForm
  { title : string;
    description : string;
    duration : Z;
    requirePassword : bool;
    password : string;
    publishImmediately : bool;
    parsedQuiz : option Pdf.ParsedQuiz }.

(** The arguments passed to [createQuizFromParsedData]. *)
Record Call : Type := mkCall
  { quiz : Pdf.ParsedQuiz; isPublished : bool; accessPassword : option string }.

(** [handleImport] up to the call: an error toast or the call. *)
Definition handleImport (form : Form) : string + Call :=
  match parsedQuiz form with
  | None => inl "Please parse the PDF and enter a title first"
  | Some parsed =>
      if String.eqb (trim (title form)) ""
      then inl "Please parse the PDF and enter a title first"
      else if requirePassword form && String.eqb (trim (password form)) ""
      then inl "Please enter a password"
      else inr
        {| quiz := {| Pdf.title := trim (title form);
                      Pdf.description := trim (description form);
                      Pdf.duration := duration form;
                      Pdf.questions := Pdf.questions parsed |};
           isPublished := publishImmediately form;
           accessPassword := if requirePassword form
                             then Some (trim (password form)) else None |}
  end.

End QuizImport.

(** ** QuizTaking.handleSubmitQuiz, the caller of [gradeShortAnswer] *)

Module QuizTaking.
Import JSString.
Local Open Scope Q_scope.

(** A row of [questions] as selected for grading. *)
Record Question : Type := mkQuestion
  { id : string;
    correct_answer : option string;
    points : Q;
    question_type : string;
    expected_keywords : option (list string);
    keyword_weightage : option (gmap string Q) }.

(** The variables set by one callback of [Object.entries(answers).map]. *)
Record Grade : Type := mkGrade
  { isCorrect : bool;
    pointsEarned : Q;
    autoGradedScore : option Q;
    requiresManualReview : bool }.

Definition ungraded : Grade := mkGrade false 0 None false.

(** The grading of one answer against its question. *)
Definition gradeAnswer (question : Question) (answer : string) : Grade :=
  if String.eqb (question_type question) "multiple-choice" then
    let isCorrect :=
      match correct_answer question with
      | Some c => String.eqb answer c
      | None => false
      end in
    mkGrade isCorrect (if isCorrect then points question else 0) None false
  else if String.eqb (question_type question) "fill-blank" then
    (* Case-insensitive comparison for fill-in-the-blank *)
    let isCorrect :=
      match correct_answer question with
      | Some c => String.eqb (trim (toLowerCase answer)) (trim (toLowerCase c))
      | None => false
      end in
    mkGrade isCorrect (if isCorrect then points question else 0) None false
  else if String.eqb (question_type question) "short-answer" then
    match expected_keywords question, keyword_weightage question with
    | Some keywords, Some weightage =>
        let gradingResult :=
          AutoGrading.gradeShortAnswer answer keywords weightage (points question) in
        mkGrade
          (* Consider partially correct if got some points *)
          (JSNumber.gtb (AutoGrading.score gradingResult) 0)
          (AutoGrading.score gradingResult)
          (Some (AutoGrading.score gradingResult))
          (* Mark for manual review if score is in middle range (40-60%) *)
          (JSNumber.geb (AutoGrading.percentage gradingResult) 40
           && JSNumber.leb (AutoGrading.percentage gradingResult) 60)
    | _, _ =>
        (* No keywords defined, mark for manual review *)
        mkGrade false 0 None true
    end
  else ungraded.

(** A row upserted in [attempt_answers]. *)
Record AnswerRow : Type := mkAnswerRow
  { attempt_id : string;
    question_id : string;
    answer_text : string;
    is_correct : bool;
    points_earned : Q;
    auto_graded_score : option Q;
    requires_manual_review : bool }.

(** The state of the grading loop: the rows and the two totals. *)
Record Totals : Type := mkTotals
  { answerData : list AnswerRow; totalScore : Q; maxScore : Q }.

(** [questionsWithAnswers?.find(q => q.id === questionId)] *)
Definition findQuestion (questionsWithAnswers : option (list Question))
    (questionId : string) : option Question :=
  match questionsWithAnswers with
  | Some qs => List.find (fun q => String.eqb (id q) questionId) qs
  | None => None
  end.

(** One callback: [entry] is a pair of [Object.entries(answers)]. *)
Definition gradeEntry (attemptId : string)
    (questionsWithAnswers : option (list Question))
    (st : Totals) (entry : string * string) : Totals :=
  let (questionId, answer) := entry in
  let question := findQuestion questionsWithAnswers questionId in
  let grade :=
    match question with
    | Some q => gradeAnswer q answer
    | None => ungraded
    end in
  {| answerData :=
       answerData st ++
       [{| attempt_id := attemptId;
           question_id := questionId;
           answer_text := answer;
           is_correct := isCorrect grade;
           points_earned := pointsEarned grade;
           auto_graded_score := autoGradedScore grade;
           requires_manual_review := requiresManualReview grade |}];
     totalScore :=
       match question with
       | Some _ => totalScore st + pointsEarned grade
       | None => totalScore st
       end;
     maxScore :=
       match question with
       | Some q => maxScore st + points q
       | None => maxScore st
       end |}.

(** Calculate grade: the rows saved and the score and maximum written to
    the attempt.  [answers] lists the entries of the answers object. *)
Definition gradeAttempt (attemptId : string)
    (questionsWithAnswers : option (list Question))
    (answers : list (string * string)) : Totals :=
  foldl (gradeEntry attemptId questionsWithAnswers) (mkTotals [] 0 0) answers.

End QuizTaking.

(** ** The normalizer read unit by unit

    What the two replacements of [normalizeText] do to the units of a
    string, written without a pattern.  [NormalizeFacts] proves them
    equal to the calls of [replace]; no property is stated over them. *)

Module Normalized.
Import JSString.

(** [/[^\w\s]/g] with the replacement [' ']: a unit that is neither
    [\w] nor [\s] becomes a space. *)
Definition blank (c : ascii) : ascii :=
  if isWord c || isSpace c then c else " "%char.

(** [/\s+/g] with the replacement [' ']: every maximal run of white
    space becomes one space.  [inRun] tells that the unit before was
    white space. *)
Fixpoint collapseFrom (inRun : bool) (s : string) : string :=
  match s with
  | EmptyString => EmptyString
  | String c s' =>
      if isSpace c
      then if inRun then collapseFrom true s'
           else String " " (collapseFrom true s')
      else String c (collapseFrom false s')
  end.

Definition collapse : string -> string := collapseFrom false.

(** White space occurs in [s] only as the space U+0020, and never
    twice in a row; [afterSpace] tells that the unit before was one. *)
Fixpoint singleSpaced (afterSpace : bool) (s : string) : bool :=
  match s with
  | EmptyString => true
  | String c s' =>
      if isSpace c
      then Ascii.eqb c " " && negb afterSpace && singleSpaced true s'
      else singleSpaced false s'
  end.

(** [a-z], [0-9], [_] and the space. *)
Definition plain (c : ascii) : bool :=
  Ascii.eqb c " " || (isWord c && negb (isUpper c)).

End Normalized.

(** ** src/components/quiz/QuizTaking.tsx: the session *)

Module QuizSession.
Local Open Scope Q_scope.

Section ShuffleArray.
Context {T : Type}.

(** [Math.random] as the sequence of its results: [random k] is the
    number returned by call [k], which the language puts in [0, 1). *)
Variable random : nat -> Q.

(** [[a[i], a[j]] = [a[j], a[i]]]: both elements are read, then [a[i]]
    and [a[j]] are written in this order.  An index outside the array
    has no result here. *)
Definition swap (a : list T) (i : nat) (j : Z) : option (list T) :=
  if (0 <=? j)%Z then
    match a !! i, a !! Z.to_nat j with
    | Some ai, Some aj => Some (<[Z.to_nat j := ai]> (<[i := aj]> a))
    | _, _ => None
    end
  else None.

(** The loop [for (let i = shuffled.length - 1; i > 0; i--)] from [i]
    on, [calls] counting the calls of [Math.random] made so far. *)
Fixpoint shuffleFrom (i calls : nat) (shuffled : list T) : option (list T) :=
  match i with
  | O => Some shuffled
  | S i' =>
      let j := Qfloor (random calls * inject_Z (Z.of_nat i + 1)) in
      match swap shuffled i j with
      | Some shuffled' => shuffleFrom i' (S calls) shuffled'
      | None => None
      end
  end.

(** Fisher-Yates shuffle algorithm *)
Definition shuffleArray (array : list T) : option (list T) :=
  let shuffled := array in
  shuffleFrom (List.length shuffled - 1) 0 shuffled.

End ShuffleArray.

(** The update of [timeRemaining] made every second: the new value, and
    whether [handleSubmitQuiz] is called. *)
Definition timerTick (prev : Z) : Z * bool :=
  if (prev <=? 1)%Z then (0%Z, true) else ((prev - 1)%Z, false).

(** [n] seconds of the timer from [timeRemaining]: the value left and
    the number of calls of [handleSubmitQuiz]. *)
Fixpoint runTimer (n : nat) (timeRemaining : Z) (submits : nat) : Z * nat :=
  match n with
  | O => (timeRemaining, submits)
  | S n' =>
      let (next, submit) := timerTick timeRemaining in
      runTimer n' next (if submit then S submits else submits)
  end.

End QuizSession.

(** * Properties *)

(** ** The matcher does not run out of fuel *)

Module RegExpFacts.
Import JSString RegExp.

Lemma get_Some_lt (s : string) (n : nat) (c : ascii) :
  String.get n s = Some c -> (n < String.length s)%nat.
Proof.
  revert n. induction s as [|a s IH]; intros [|n]; cbn; try discriminate.
  - lia.
  - intros H. apply IH in H. lia.
Qed.

Section Fuel.
Variable input : string.
Variable fl : Flags.

Local Abbreviation len := (String.length input).

Local Abbreviation agree := (RegExp.agree input).
Local Abbreviation localMatcher := (RegExp.localMatcher input).

Lemma agree_later (x y : MatchState) (c c' : Continuation) :
  agree x c c' ->
  (endIndex x <= endIndex y)%nat ->
  (endIndex y <= len)%nat \/ endIndex y = endIndex x ->
  agree y c c'.
Proof.
  intros H Hxy Hy z Hyz Hz. apply H; lia.
Qed.

Lemma unitMatcher_local (accepts : ascii -> bool) :
  localMatcher (unitMatcher input accepts).
Proof.
  intros x c c' H. unfold unitMatcher.
  destruct (String.get (endIndex x) input) as [ch|] eqn:E; [|reflexivity].
  destruct (accepts ch); [|reflexivity].
  apply get_Some_lt in E. apply H; cbn; lia.
Qed.

Lemma repeatMatcher_local (m : Matcher) (greedy : bool) (parens : list nat) :
  localMatcher m ->
  forall fuel lo hi, localMatcher (repeatMatcher fuel m lo hi greedy parens).
Proof.
  intros Hm fuel. induction fuel as [|fuel IH]; intros lo hi x c c' H; cbn.
  - reflexivity.
  - assert (Hx : c x = c' x) by (apply H; lia).
    assert (Hd : m (mkState (endIndex x) (clearCaptures parens (captures x)))
                   (fun y => if ((lo =? 0) && (endIndex y =? endIndex x))%nat
                             then None
                             else repeatMatcher fuel m (pred lo) (pred <$> hi)
                                    greedy parens y c)
                 = m (mkState (endIndex x) (clearCaptures parens (captures x)))
                     (fun y => if ((lo =? 0) && (endIndex y =? endIndex x))%nat
                               then None
                               else repeatMatcher fuel m (pred lo) (pred <$> hi)
                                      greedy parens y c')).
    { apply Hm. intros y Hxy Hy. cbn in Hxy, Hy.
      destruct ((lo =? 0) && (endIndex y =? endIndex x))%nat; [reflexivity|].
      apply IH. now apply (agree_later x). }
    destruct hi as [[|h]|]; [exact Hx| |];
      rewrite Hd, Hx; reflexivity.
Qed.

Lemma matcher_local (r : Pattern) : localMatcher (matcher input fl r).
Proof.
  induction r as [|a| |negated atoms|r1 IH1 r2 IH2|r1 IH1 r2 IH2
                  |lo hi greedy r1 IH1|n r1 IH1|r1 IH1| |];
    cbn [matcher]; try apply unitMatcher_local.
  - intros x c c' H. apply H; lia.
  - intros x c c' H. apply IH1. intros y Hxy Hy. apply IH2.
    now apply (agree_later x).
  - intros x c c' H. now rewrite (IH1 x c c' H), (IH2 x c c' H).
  - intros x c c' H. now apply repeatMatcher_local.
  - intros x c c' H. apply IH1. intros y Hxy Hy. apply H; cbn; assumption.
  - intros x c c' H. destruct (matcher input fl r1 x Some); [|reflexivity].
    apply H; cbn; lia.
  - intros x c c' H. destruct (atLineStart input fl (endIndex x)); [|reflexivity].
    apply H; lia.
  - intros x c c' H. destruct (atLineEnd input fl (endIndex x)); [|reflexivity].
    apply H; lia.
Qed.

(** Beyond [lo] plus the number of units left, more fuel changes
    nothing. *)
Lemma repeatMatcher_fuel (m : Matcher) (greedy : bool) (parens : list nat) :
  localMatcher m ->
  forall fuel lo hi x c,
    (lo + (len - endIndex x) < fuel)%nat ->
    repeatMatcher fuel m lo hi greedy parens x c
    = repeatMatcher (S fuel) m lo hi greedy parens x c.
Proof.
  intros Hm fuel. induction fuel as [|fuel IH]; intros lo hi x c Hfuel; [lia|].
  cbn [repeatMatcher].
  assert (Hd : m (mkState (endIndex x) (clearCaptures parens (captures x)))
                 (fun y => if ((lo =? 0) && (endIndex y =? endIndex x))%nat
                           then None
                           else repeatMatcher fuel m (pred lo) (pred <$> hi)
                                  greedy parens y c)
               = m (mkState (endIndex x) (clearCaptures parens (captures x)))
                   (fun y => if ((lo =? 0) && (endIndex y =? endIndex x))%nat
                             then None
                             else repeatMatcher (S fuel) m (pred lo) (pred <$> hi)
                                    greedy parens y c)).
  { apply Hm. intros y Hxy Hy. cbn [endIndex] in Hxy, Hy.
    destruct (Nat.eqb_spec lo 0) as [Hlo|Hlo];
      destruct (Nat.eqb_spec (endIndex y) (endIndex x)) as [He|He];
      cbn [andb]; try reflexivity; apply IH; lia. }
  destruct hi as [[|h]|]; [reflexivity| |]; now rewrite Hd.
Qed.

(** The fuel that [matcher] gives to a quantifier is enough: with any
    larger amount the result is the same. *)
Lemma quantifier_fuel_enough (lo : nat) (hi : option nat) (greedy : bool)
    (r : Pattern) (x : MatchState) (c : Continuation) (extra : nat) :
  repeatMatcher (extra + S (lo + (len - endIndex x))) (matcher input fl r)
                lo hi greedy (groupsOf r) x c
  = matcher input fl (Quant lo hi greedy r) x c.
Proof.
  induction extra as [|extra IH]; [reflexivity|].
  rewrite <- IH. cbn [Nat.add]. symmetry.
  apply repeatMatcher_fuel; [apply matcher_local|lia].
Qed.

(** A matcher moves forward: the state it hands to its continuation is
    not before the one it started from. *)
Lemma repeatMatcher_forward (m : Matcher) (greedy : bool) (parens : list nat) :
  (forall x c z, m x c = Some z ->
                 exists y, (endIndex x <= endIndex y)%nat /\ c y = Some z) ->
  forall fuel lo hi x c z,
    repeatMatcher fuel m lo hi greedy parens x c = Some z ->
    exists y, (endIndex x <= endIndex y)%nat /\ c y = Some z.
Proof.
  intros Hm fuel. induction fuel as [|fuel IH]; intros lo hi x c z; cbn;
    [discriminate|].
  assert (Hd : m (mkState (endIndex x) (clearCaptures parens (captures x)))
                 (fun y => if ((lo =? 0) && (endIndex y =? endIndex x))%nat
                           then None
                           else repeatMatcher fuel m (pred lo) (pred <$> hi)
                                  greedy parens y c) = Some z ->
               exists y, (endIndex x <= endIndex y)%nat /\ c y = Some z).
  { intros H. apply Hm in H as (y & Hxy & Hy). cbn in Hxy.
    destruct ((lo =? 0) && (endIndex y =? endIndex x))%nat; [discriminate|].
    apply IH in Hy as (y' & Hyy' & Hy'). exists y'. split; [lia|exact Hy']. }
  assert (Hx : c x = Some z ->
               exists y, (endIndex x <= endIndex y)%nat /\ c y = Some z)
    by (intros H; exists x; split; [lia|exact H]).
  destruct hi as [[|h]|]; [exact Hx| |];
    (destruct (lo =? 0)%nat; cbn [negb];
     [destruct greedy; cbn [negb];
      [destruct (m _ _) eqn:E; [intros [= <-]; now apply Hd|exact Hx]
      |destruct (c x) eqn:E; [intros [= <-]; now apply Hx|exact Hd]]
     |exact Hd]).
Qed.

Lemma matcher_forward (r : Pattern) (x : MatchState) (c : Continuation)
    (z : MatchState) :
  matcher input fl r x c = Some z ->
  exists y, (endIndex x <= endIndex y)%nat /\ c y = Some z.
Proof.
  revert x c z.
  induction r as [|a| |negated atoms|r1 IH1 r2 IH2|r1 IH1 r2 IH2
                  |lo hi greedy r1 IH1|n r1 IH1|r1 IH1| |];
    intros x c z; cbn [matcher];
    try (unfold unitMatcher;
         destruct (String.get (endIndex x) input); [|discriminate];
         match goal with |- context [if ?b then _ else _] => destruct b end;
         [|discriminate];
         intros H; eexists; split; [|exact H]; cbn; lia).
  - intros H. exists x. split; [lia|exact H].
  - intros H. apply IH1 in H as (y & Hxy & H1).
    apply IH2 in H1 as (y' & Hyy' & H2). exists y'. split; [lia|exact H2].
  - destruct (matcher input fl r1 x c) eqn:E.
    + intros [= <-]. now apply IH1.
    + apply IH2.
  - apply repeatMatcher_forward. exact IH1.
  - intros H. apply IH1 in H as (y & Hxy & H1). eexists. split; [|exact H1].
    cbn. exact Hxy.
  - destruct (matcher input fl r1 x Some); [|discriminate].
    intros H. eexists. split; [|exact H]. cbn. lia.
  - destruct (atLineStart input fl (endIndex x)); [|discriminate].
    intros H. exists x. split; [lia|exact H].
  - destruct (atLineEnd input fl (endIndex x)); [|discriminate].
    intros H. exists x. split; [lia|exact H].
Qed.

Lemma matchAt_forward (r : Pattern) (i : nat) (y : MatchState) :
  matchAt input fl r i = Some y -> (i <= endIndex y)%nat.
Proof.
  unfold matchAt. intros H.
  apply matcher_forward in H as (y' & Hle & [= ->]). exact Hle.
Qed.

End Fuel.

(** *** The loops of [exec], [replace] and [split] *)

Lemma execFrom_bounds (re : RegExp.t) (s : string) (sticky : bool)
    (fuel start : nat) (m : MatchResult) :
  execFrom re s sticky fuel start = Some m ->
  (start <= index m <= lastIndex m)%nat
  /\ (index m <= String.length s)%nat
  /\ (sticky = true -> index m = start).
Proof.
  revert start. induction fuel as [|fuel IH]; intros start; cbn [execFrom];
    destruct (Nat.ltb_spec (String.length s) start) as [Hlt|Hge];
    try discriminate;
    (destruct (matchAt s (flags re) (source re) start) as [y|] eqn:E;
     [intros [= <-]; cbn; apply matchAt_forward in E; repeat split; lia|]);
    destruct sticky; try discriminate.
  intros Hm. apply IH in Hm as (H1 & H2 & _).
  repeat split; lia.
Qed.

Lemma execFrom_unfold (re : RegExp.t) (s : string) (sticky : bool)
    (fuel start : nat) :
  execFrom re s sticky fuel start
  = if (String.length s <? start)%nat then None
    else match matchAt s (flags re) (source re) start with
         | Some y =>
             Some (mkResult start (endIndex y)
                     (<[0 := slice s start (endIndex y)]> (captures y)))
         | None =>
             if sticky then None
             else match fuel with
                  | O => None
                  | S fuel' => execFrom re s sticky fuel' (S start)
                  end
         end.
Proof. destruct fuel; reflexivity. Qed.

Lemma execFrom_past_end (re : RegExp.t) (s : string) (sticky : bool)
    (fuel start : nat) :
  (String.length s < start)%nat -> execFrom re s sticky fuel start = None.
Proof.
  intros H. rewrite execFrom_unfold.
  now destruct (Nat.ltb_spec (String.length s) start); [|lia].
Qed.

Lemma execFrom_fuel (re : RegExp.t) (s : string) (sticky : bool)
    (fuel start : nat) :
  (String.length s - start <= fuel)%nat ->
  execFrom re s sticky fuel start = execFrom re s sticky (S fuel) start.
Proof.
  revert start. induction fuel as [|fuel IH]; intros start Hfuel;
    rewrite (execFrom_unfold re s sticky (S _) start);
    rewrite (execFrom_unfold re s sticky _ start);
    destruct (Nat.ltb_spec (String.length s) start) as [Hlt|Hge];
    try reflexivity;
    destruct (matchAt _ _ _ _); try reflexivity;
    destruct sticky; try reflexivity.
  - symmetry. apply execFrom_past_end. lia.
  - apply IH. lia.
Qed.

Lemma allMatches_S (re : RegExp.t) (s : string) (fuel start : nat) :
  allMatches re s (S fuel) start
  = match exec re s start with
    | None => []
    | Some m =>
        if global (flags re)
        then m :: allMatches re s fuel
                    (if (lastIndex m =? index m)%nat then S (lastIndex m)
                     else lastIndex m)
        else [m]
    end.
Proof. reflexivity. Qed.

Lemma allMatches_fuel (re : RegExp.t) (s : string) (fuel start : nat) :
  (S (String.length s) - start <= fuel)%nat ->
  allMatches re s fuel start = allMatches re s (S fuel) start.
Proof.
  revert start. induction fuel as [|fuel IH]; intros start Hfuel.
  - rewrite allMatches_S. unfold exec. rewrite execFrom_past_end by lia.
    reflexivity.
  - rewrite (allMatches_S re s fuel start), (allMatches_S re s (S fuel) start).
    destruct (exec re s start) as [m|] eqn:E; [|reflexivity].
    destruct (global (flags re)); [|reflexivity].
    f_equal. apply IH.
    apply execFrom_bounds in E as (H1 & H2 & _).
    destruct (Nat.eqb_spec (lastIndex m) (index m)); lia.
Qed.

Lemma splitLoop_S (re : RegExp.t) (s : string) (fuel p q : nat) :
  splitLoop re s (S fuel) p q
  = if (String.length s <=? q)%nat then [slice s p (String.length s)]
    else match execSticky re s q with
         | None => splitLoop re s fuel p (S q)
         | Some m =>
             let e := Nat.min (lastIndex m) (String.length s) in
             if (e =? p)%nat then splitLoop re s fuel p (S q)
             else slice s p q :: splitLoop re s fuel e e
         end.
Proof. reflexivity. Qed.

Lemma splitLoop_fuel (re : RegExp.t) (s : string) (fuel p q : nat) :
  (p <= q)%nat ->
  (2 * (String.length s - q) + (if (p =? q)%nat then 0 else 1) <= fuel)%nat ->
  splitLoop re s fuel p q = splitLoop re s (S fuel) p q.
Proof.
  revert p q. induction fuel as [|fuel IH]; intros p q Hpq Hfuel.
  - rewrite splitLoop_S.
    destruct (Nat.leb_spec (String.length s) q); [reflexivity|lia].
  - rewrite (splitLoop_S re s fuel p q), (splitLoop_S re s (S fuel) p q).
    destruct (Nat.leb_spec (String.length s) q) as [|Hq]; [reflexivity|].
    assert (Hnext : splitLoop re s fuel p (S q) = splitLoop re s (S fuel) p (S q)).
    { apply IH; [lia|].
      destruct (Nat.eqb_spec p (S q)); destruct (Nat.eqb_spec p q); lia. }
    destruct (execSticky re s q) as [m|] eqn:E; [|exact Hnext].
    cbv zeta.
    destruct (Nat.eqb_spec (Nat.min (lastIndex m) (String.length s)) p) as [|He];
      [exact Hnext|].
    f_equal. apply execFrom_bounds in E as (H1 & H2 & H3).
    specialize (H3 eq_refl).
    apply IH; [lia|]. rewrite Nat.eqb_refl.
    destruct (Nat.eqb_spec p q); lia.
Qed.

End RegExpFacts.

(** ** The keyword matcher and the grading engine *)

Module GradingFacts.
Import JSString AutoGrading.
Local Open Scope Q_scope.

(** *** Strings *)

Lemma includes_empty (s : string) : includes s "" = true.
Proof. destruct s; reflexivity. Qed.


(** *** The matcher on empty normal forms *)


(** *** Rounding *)

Lemma round_integer (z : Z) : JSNumber.round (inject_Z z) = inject_Z z.
Proof.
  unfold JSNumber.round. f_equal.
  unfold Qfloor, Qplus, inject_Z. cbn.
  symmetry. apply (Z.div_unique _ _ _ 1); lia.
Qed.

Lemma round_proper (x y : Q) : x == y -> JSNumber.round x = JSNumber.round y.
Proof.
  intros H. unfold JSNumber.round. f_equal.
  apply Qfloor_comp. now rewrite H.
Qed.

Lemma gtb_true (x : Q) : 0 < x -> JSNumber.gtb x 0 = true.
Proof.
  intros H. unfold JSNumber.gtb.
  destruct (Qle_bool x 0) eqn:E; [|reflexivity].
  apply Qle_bool_iff in E. exfalso. exact (Qlt_not_le _ _ H E).
Qed.

(** *** The grading loop *)

Section Loop.
Variables (studentAnswer : string) (keywordWeightage : gmap string Q).

Let run := foldl (evaluateKeyword studentAnswer keywordWeightage).


Lemma run_all_found (ks : list string) (st : Tally) :
  Forall (fun k => containsKeyword studentAnswer k = true) ks ->
  Forall (fun m => found m = true) (matches st) ->
  earnedPoints st = maxPossiblePoints st ->
  Forall (fun m => found m = true) (matches (run st ks))
  /\ earnedPoints (run st ks) = maxPossiblePoints (run st ks).
Proof.
  revert st. induction ks as [|k ks IH]; intros st Hall Hst Heq; cbn.
  - now split.
  - inversion Hall as [|? ? Hk Hks]; subst.
    apply IH; [exact Hks| |]; unfold evaluateKeyword; rewrite Hk; cbn.
    + apply Forall_app. split; [exact Hst|]. now constructor.
    + now rewrite Heq.
Qed.

Lemma run_possible_le (ks : list string) (st : Tally) :
  Forall (fun k => 0 < weightOf keywordWeightage k) ks ->
  maxPossiblePoints st <= maxPossiblePoints (run st ks).
Proof.
  revert st. induction ks as [|k ks IH]; intros st Hpos; cbn.
  - apply Qle_refl.
  - inversion Hpos as [|? ? Hk Hks]; subst.
    eapply Qle_trans; [|apply IH; exact Hks]. cbn.
    rewrite <- (Qplus_0_r (maxPossiblePoints st)) at 1.
    apply Qplus_le_r. now apply Qlt_le_weak.
Qed.

Lemma run_possible_pos (ks : list string) :
  ks <> [] ->
  Forall (fun k => 0 < weightOf keywordWeightage k) ks ->
  0 < maxPossiblePoints (run (mkTally [] 0 0) ks).
Proof.
  destruct ks as [|k ks]; [congruence|]. intros _ Hpos.
  inversion Hpos as [|? ? Hk Hks]; subst. cbn.
  eapply Qlt_le_trans; [|apply run_possible_le; exact Hks]. cbn.
  now rewrite Qplus_0_l.
Qed.
End Loop.


(** *** The rubric scenarios of the specification *)

Example scenario_both_keywords :
  let r := gradeShortAnswer "Plants use chlorophyll to perform Photosynthesis."
             ["photosynthesis"; "chlorophyll"]
             (<["photosynthesis" := 2]> {["chlorophyll" := 1]}) 6 in
  found <$> matchedKeywords r = [true; true]
  /\ score r == 6 /\ percentage r == 100
  /\ requiresManualReview r None = false.
Proof. vm_compute. repeat split. Qed.

Example scenario_no_keyword :
  let r := gradeShortAnswer "Plants grow using sunlight."
             ["photosynthesis"; "chlorophyll"]
             (<["photosynthesis" := 2]> {["chlorophyll" := 1]}) 6 in
  found <$> matchedKeywords r = [false; false]
  /\ score r == 0 /\ percentage r == 0
  /\ requiresManualReview r None = false.
Proof. vm_compute. repeat split. Qed.

Example scenario_one_keyword :
  let r := gradeShortAnswer "Leaves are green because of chlorophyll."
             ["photosynthesis"; "chlorophyll"]
             (<["photosynthesis" := 2]> {["chlorophyll" := 1]}) 6 in
  found <$> matchedKeywords r = [false; true]
  /\ score r == 2 /\ percentage r == 100 # 3
  /\ requiresManualReview r None = false.
Proof. vm_compute. repeat split. Qed.

(** *** The claims on the matcher and the grading engine *)

(** C1, as stated, at the response "mitosis" and the empty keyword: the
    matcher does not return false. *)
Lemma empty_keyword_is_matched : containsKeyword "mitosis" "" <> false.
Proof. vm_compute. discriminate. Qed.

(** C1, amended: [containsKeyword] has no guard for an empty keyword.
    For every response and every keyword whose normal form is the empty
    string (the empty keyword among them) the matcher returns true,
    because the empty string is included in every normalized response. *)
Theorem blank_keyword_always_matches (response keyword : string) :
  normalizeText keyword = "" -> containsKeyword response keyword = true.
Proof.
  intros Hblank. unfold containsKeyword.
  rewrite Hblank, includes_empty. reflexivity.
Qed.

Lemma blank_keyword_always_matches_witness :
  normalizeText "?!" = "" /\ containsKeyword "mitosis" "?!" = true.
Proof.
  split; [vm_compute; reflexivity|].
  apply blank_keyword_always_matches. vm_compute. reflexivity.
Defined.



(** C4: [requiresManualReview] holds exactly when the percentage lies in
    the closed interval from 40 to 60, whatever the threshold argument;
    40 and 60 require review, 39.99 and 60.01 do not. *)
Theorem review_band (gradingResult : GradingResult) (reviewThreshold : option Q) :
  (requiresManualReview gradingResult reviewThreshold = true
   <-> 40 <= percentage gradingResult /\ percentage gradingResult <= 60)
  /\ (forall s m l t,
         requiresManualReview (mkGradingResult s m 40 l) t = true
         /\ requiresManualReview (mkGradingResult s m 60 l) t = true
         /\ requiresManualReview (mkGradingResult s m (3999 # 100) l) t = false
         /\ requiresManualReview (mkGradingResult s m (6001 # 100) l) t = false).
Proof.
  split.
  - unfold requiresManualReview, JSNumber.geb, JSNumber.leb.
    rewrite <- !Qle_bool_iff.
    destruct (Qle_bool 40 _), (Qle_bool _ 60); cbn; intuition congruence.
  - intros s m l t. repeat split.
Qed.

(** C5: with the empty response, or with no keyword, [gradeShortAnswer]
    returns the zero case: score 0, percentage 0, [maxScore] equal to
    [totalPoints] and no match. *)
Theorem zero_case (studentAnswer : string) (expectedKeywords : list string)
    (keywordWeightage : gmap string Q) (totalPoints : Q) :
  studentAnswer = "" \/ expectedKeywords = [] ->
  gradeShortAnswer studentAnswer expectedKeywords keywordWeightage totalPoints
  = {| score := 0; maxScore := totalPoints; percentage := 0;
       matchedKeywords := [] |}.
Proof.
  intros [-> | ->]; unfold gradeShortAnswer; cbn.
  - reflexivity.
  - now rewrite orb_true_r.
Qed.

Lemma zero_case_witness :
  gradeShortAnswer "" ["photosynthesis"] {["photosynthesis" := 2]} 10
  = {| score := 0; maxScore := 10; percentage := 0; matchedKeywords := [] |}
  /\ gradeShortAnswer "Plants use chlorophyll" [] ∅ 10
     = {| score := 0; maxScore := 10; percentage := 0; matchedKeywords := [] |}.
Proof.
  split; apply zero_case; [left | right]; reflexivity.
Defined.




End GradingFacts.

(** ** Sorting and the parsing loops *)

Module LoopFacts.
Import Pdf.

Section Sort.
Context {A : Type}.

Lemma insert_Permutation (compareFn : A -> A -> Z) (x : A) (l : list A) :
  JSArray.insert compareFn x l ≡ₚ x :: l.
Proof.
  induction l as [|y l IH]; cbn; [reflexivity|].
  destruct (compareFn x y <=? 0)%Z; [reflexivity|].
  rewrite IH. apply Permutation_swap.
Qed.

Lemma sort_Permutation (compareFn : A -> A -> Z) (l : list A) :
  JSArray.sort compareFn l ≡ₚ l.
Proof.
  induction l as [|x l IH]; cbn; [reflexivity|].
  fold (JSArray.sort compareFn l).
  now rewrite insert_Permutation, IH.
Qed.
End Sort.

(** Ascending order of [order_index]. *)
Local Abbreviation ascending :=
  (fun a b : ParsedQuestion => (order_index a <= order_index b)%Z).

Lemma insert_sorted (x : ParsedQuestion) (l : list ParsedQuestion) :
  StronglySorted ascending l ->
  StronglySorted ascending (JSArray.insert byOrderIndex x l).
Proof.
  induction 1 as [|y l Hl IH Hy]; cbn.
  - repeat constructor.
  - unfold byOrderIndex at 1.
    destruct (Z.leb_spec (order_index x - order_index y) 0) as [Hle|Hgt].
    + constructor; [now constructor|].
      constructor; [lia|].
      eapply Forall_impl; [exact Hy|]. intros z Hz. cbn in Hz. lia.
    + constructor; [exact IH|].
      rewrite insert_Permutation. constructor; [lia|exact Hy].
Qed.

Lemma sort_sorted (l : list ParsedQuestion) :
  StronglySorted ascending (JSArray.sort byOrderIndex l).
Proof.
  induction l as [|x l IH]; cbn; [constructor|].
  now apply insert_sorted.
Qed.

Lemma iota_sorted (start n : nat) :
  StronglySorted Z.le (Z.of_nat <$> seq start n).
Proof.
  revert start. induction n as [|n IH]; intros start; cbn; constructor.
  - apply IH.
  - apply Forall_fmap, Forall_forall. intros i Hi.
    apply list_elem_of_In, in_seq in Hi. cbn. lia.
Qed.

(** Sorting records whose indexes are 0 .. N-1 in some order puts index
    [i] at position [i]. *)
Lemma sort_indexes_iota (l : list ParsedQuestion) :
  order_index <$> l ≡ₚ Z.of_nat <$> seq 0 (List.length l) ->
  order_index <$> JSArray.sort byOrderIndex l
  = Z.of_nat <$> seq 0 (List.length l).
Proof.
  intros Hperm.
  apply (StronglySorted_unique Z.le).
  - eapply StronglySorted_fmap; [|apply sort_sorted]. auto.
  - apply iota_sorted.
  - now rewrite sort_Permutation.
Qed.

(** The records gathered by a loop are those pushed by its turns, in
    order. *)
Lemma runTurns_fst {X : Type} (body : X -> Turn) (xs : list X) :
  fst (runTurns body xs) = omap (fun x => pushed (body x)) xs.
Proof.
  unfold runTurns.
  enough (H : forall acc,
             fst (foldl (fun acc x =>
                           let t := body x in
                           (fst acc ++ option_list (pushed t),
                            snd acc ++ warned t)) acc xs)
             = fst acc ++ omap (fun x => pushed (body x)) xs)
    by (rewrite H; reflexivity).
  induction xs as [|x xs IH]; intros acc; cbn.
  - now rewrite app_nil_r.
  - rewrite IH. cbn. destruct (pushed (body x)); cbn.
    + now rewrite <- app_assoc.
    + now rewrite app_nil_r.
Qed.


End LoopFacts.

(** ** The question extraction engine *)

Module ParserFacts.
Import JSString RegExp Pdf Scenarios LoopFacts.
Module PI := RealPDFParser_PageImage.
Module TX := RealPDFParser_Text.

(** *** The page-image revision *)

(** What [processPage] pushes for a page with a detected question. *)
Lemma processPage_detected (page : Page) (questionNum : Z) (questionText : string) :
  PI.detect page = Some (questionNum, questionText) ->
  pushed (PI.processPage page) = Some
    {| question_text := questionText;
       question_type := multiple_choice;
       options :=
         if (List.length (PI.extractOptions (pageText page)) =? 4)%nat
         then PI.extractOptions (pageText page)
         else ["A"; "B"; "C"; "D"];
       correct_answer := Some "";
       points := 2;
       order_index := questionNum - 1;
       has_image := true;
       image_data := Some
         {| blob := raster page;
            filename := "question_" +:+ ofZ questionNum +:+ ".png" |} |}.
Proof. intros H. unfold PI.processPage. now rewrite H. Qed.

Lemma processPage_undetected (page : Page) :
  PI.detect page = None -> PI.processPage page = skip.
Proof. intros H. unfold PI.processPage. now rewrite H. Qed.


(** *** The text revision *)

(** The shape of a record pushed by [processBlock]. *)
Lemma processBlock_pushed (block : string) (q : ParsedQuestion) :
  pushed (TX.processBlock block) = Some q ->
  exists numMatch textMatch,
    match_ block TX.blockNumber = Some numMatch
    /\ match_ block TX.questionTextRegex = Some textMatch
    /\ Forall (fun opt => opt <> "") (TX.optionsOf block)
    /\ q = {| question_text :=
                replace (trim (text 1 textMatch)) whitespaceRun " ";
              question_type := multiple_choice;
              options := TX.optionsOf block;
              correct_answer := Some
                (if String.eqb (TX.answerOf block (TX.optionsOf block)) ""
                 then nth 0 (TX.optionsOf block) ""
                 else TX.answerOf block (TX.optionsOf block));
              points := 1;
              order_index := parseInt (text 1 numMatch) - 1;
              has_image := false;
              image_data := None |}.
Proof.
  unfold TX.processBlock.
  destruct (String.eqb (trim block) ""); [discriminate|].
  destruct (match_ block TX.blockNumber) as [numMatch|]; [|discriminate].
  destruct (match_ block TX.questionTextRegex) as [textMatch|]; [|discriminate].
  destruct (String.eqb _ "" || existsb _ _) eqn:Hbad; [discriminate|].
  cbn. intros [= <-]. exists numMatch, textMatch.
  apply orb_false_iff in Hbad as [_ Hopts].
  repeat split.
  apply Forall_forall. intros opt Hin Hempty. subst opt.
  apply list_elem_of_In in Hin.
  assert (Hex : existsb (fun opt => String.eqb opt "" || (String.length opt <? 1)%nat)
                  (TX.optionsOf block) = true)
    by (apply existsb_exists; exists ""; split; [exact Hin|reflexivity]).
  congruence.
Qed.


(** *** The claims on the extraction engine *)




(** C6, as stated: on the one-line text the segmenter finds no line
    start in front of "2." and a single record comes out, alone or as
    the text of a one-page document. *)
Lemma one_line_scenario_is_one_record :
  List.length (fst (TX.extractFromText segmenterText)) <> 2%nat
  /\ (forall quiz,
         TX.parseQuizFromPDF [mkPage [TextItem segmenterText] png] None None
         = inr quiz ->
         List.length (questions quiz) <> 2%nat).
Proof.
  split; [vm_compute; discriminate|].
  intros quiz H. vm_compute in H. injection H as <-. cbn. discriminate.
Qed.

(** C6, amended: with the second question starting on a new line the
    segmenter and the field extractor yield exactly two records, with
    order indexes 0 and 1, four options each, and correct answers "4"
    and "Paris"; on the one-line text they yield the first record
    only. *)
Theorem segmenter_scenario :
  (exists q1 q2,
      fst (TX.extractFromText segmenterLines) = [q1; q2]
      /\ order_index q1 = 0%Z /\ order_index q2 = 1%Z
      /\ options q1 = ["3"; "4"; "5"; "6"]
      /\ options q2 = ["Berlin"; "Paris"; "Rome"; "Madrid"]
      /\ correct_answer q1 = Some "4"
      /\ correct_answer q2 = Some "Paris"
      /\ fst (TX.extractFromText segmenterText) = [q1])
  /\ snd (TX.extractFromText segmenterLines) = []
  /\ snd (TX.extractFromText segmenterText) = [].
Proof.
  split; [|split; vm_compute; reflexivity].
  eexists _, _. split; [vm_compute; reflexivity|].
  repeat split.
Qed.

(** C8: when a block is parsed into a record and the answer pattern,
    "Answer" or "Correct" in any case followed by a letter from A to
    D, matches nowhere in it, the correct answer of the record is its
    first option. *)
Theorem missing_marker_defaults_to_first_option (block : string)
    (q : ParsedQuestion) :
  pushed (TX.processBlock block) = Some q ->
  match_ block TX.answerRegex = None ->
  exists first rest,
    options q = first :: rest /\ correct_answer q = Some first.
Proof.
  intros Hq Hnone.
  destruct (processBlock_pushed _ _ Hq) as (numMatch & textMatch & _ & _ & _ & ->).
  cbn [options correct_answer]. unfold TX.answerOf. rewrite Hnone.
  unfold TX.optionsOf. eexists _, _. split; reflexivity.
Qed.

Lemma missing_marker_defaults_to_first_option_witness :
  let q := mkParsedQuestion
             "Which gas do plants absorb? A) Oxygen B) Nitrogen C) Helium D) Neon"
             multiple_choice ["Oxygen"; "Nitrogen"; "Helium"; "Neon"]
             (Some "Oxygen") 1 2 false None in
  pushed (TX.processBlock noMarkerBlock) = Some q
  /\ match_ noMarkerBlock TX.answerRegex = None
  /\ exists first rest,
       options q = first :: rest /\ correct_answer q = Some first.
Proof.
  intros q.
  assert (Hq : pushed (TX.processBlock noMarkerBlock) = Some q)
    by (vm_compute; reflexivity).
  assert (Hnone : match_ noMarkerBlock TX.answerRegex = None)
    by (vm_compute; reflexivity).
  split; [exact Hq|]. split; [exact Hnone|].
  exact (missing_marker_defaults_to_first_option noMarkerBlock q Hq Hnone).
Defined.

(** C9, as stated, on a document whose second page has four options that
    parse: the record has the empty string as correct answer, not null,
    and the parsed options, not the placeholder labels. *)
Lemma page_image_record_not_placeholder :
  exists quiz q,
    PI.parseQuizFromPDF examPdf None None = inr quiz
    /\ q ∈ questions quiz
    /\ correct_answer q <> None
    /\ options q <> ["A"; "B"; "C"; "D"].
Proof.
  eexists _, _. split; [vm_compute; reflexivity|].
  split; [apply list_elem_of_here|]. split; discriminate.
Qed.

(** C9, amended: every record of the page-image revision has the empty
    string as correct answer, [has_image] set, two points, and comes
    from a page after the first on which question N was detected: its
    order index is N - 1, the rendered page is attached under the name
    question_N.png, and its options are the four parsed option texts
    when exactly four were parsed and the labels A, B, C, D
    otherwise. *)
Theorem page_image_record_shape (pdf : Document)
    (quizTitle quizDescription : option string) (quiz : ParsedQuiz) :
  PI.parseQuizFromPDF pdf quizTitle quizDescription = inr quiz ->
  Forall (fun q =>
    correct_answer q = Some ""
    /\ has_image q = true
    /\ points q = 2%Z
    /\ List.length (options q) = 4%nat
    /\ exists page questionNum,
         page ∈ drop 1 pdf
         /\ PI.detect page = Some (questionNum, question_text q)
         /\ order_index q = (questionNum - 1)%Z
         /\ image_data q = Some
              {| blob := raster page;
                 filename := "question_" +:+ ofZ questionNum +:+ ".png" |}
         /\ options q =
              if (List.length (PI.extractOptions (pageText page)) =? 4)%nat
              then PI.extractOptions (pageText page)
              else ["A"; "B"; "C"; "D"])
    (questions quiz).
Proof.
  unfold PI.parseQuizFromPDF, PI.assemble, PI.extractQuestions.
  destruct (List.length _ =? 0)%nat; [discriminate|].
  intros [= <-]. cbn [questions].
  rewrite sort_Permutation, runTurns_fst.
  apply Forall_forall. intros q Hq.
  apply list_elem_of_omap in Hq as (page & Hpage & Hpushed).
  destruct (PI.detect page) as [[questionNum questionText]|] eqn:Hd.
  - rewrite (processPage_detected _ _ _ Hd) in Hpushed.
    injection Hpushed as <-.
    cbn [correct_answer has_image points options order_index image_data
         question_text].
    repeat split.
    + destruct (Nat.eqb_spec (List.length (PI.extractOptions (pageText page))) 4)
        as [E|_]; [exact E|reflexivity].
    + exists page, questionNum. repeat split; assumption.
  - rewrite (processPage_undetected _ Hd) in Hpushed. discriminate.
Qed.

Lemma page_image_record_shape_witness :
  exists quiz,
    PI.parseQuizFromPDF examPdf None None = inr quiz
    /\ Forall (fun q => correct_answer q = Some "" /\ has_image q = true)
         (questions quiz).
Proof.
  eexists. split; [vm_compute; reflexivity|].
  eapply Forall_impl.
  - apply (page_image_record_shape examPdf None None). vm_compute. reflexivity.
  - cbn. intros q (H1 & H2 & _). now split.
Defined.

(** C10, as stated, for N = 0: on the empty list the assembly reports
    an error and returns no document. *)
Lemma empty_list_is_not_assembled :
  ~ exists quiz, TX.assemble [] None None = inr quiz.
Proof. intros [quiz H]. discriminate H. Qed.

(** C10, amended: for every list of N >= 1 records whose order indexes
    are 0 .. N-1 in some order, the assembly returns a document whose
    questions are a permutation of the input, N in number, in ascending
    order of [order_index], position i holding index i. *)
Theorem assemble_sorts (questions0 : list ParsedQuestion)
    (quizTitle quizDescription : option string) :
  questions0 <> [] ->
  order_index <$> questions0 ≡ₚ Z.of_nat <$> seq 0 (List.length questions0) ->
  exists quiz,
    TX.assemble questions0 quizTitle quizDescription = inr quiz
    /\ questions quiz ≡ₚ questions0
    /\ List.length (questions quiz) = List.length questions0
    /\ StronglySorted (fun a b => (order_index a <= order_index b)%Z)
         (questions quiz)
    /\ order_index <$> questions quiz
       = Z.of_nat <$> seq 0 (List.length questions0).
Proof.
  intros Hne Hperm. unfold TX.assemble.
  destruct questions0 as [|q0 rest] eqn:E; [congruence|].
  rewrite <- E in *. assert (Hlen : (List.length questions0 =? 0)%nat = false)
    by (rewrite E; reflexivity).
  rewrite Hlen. eexists. split; [reflexivity|]. cbn [questions].
  repeat split.
  - apply sort_Permutation.
  - now rewrite sort_Permutation.
  - apply sort_sorted.
  - now apply sort_indexes_iota.
Qed.

Lemma assemble_sorts_witness :
  exists quiz,
    TX.assemble
      [mkParsedQuestion "Capital of France?" multiple_choice
         ["Berlin"; "Paris"; "Rome"; "Madrid"] (Some "Paris") 1 1 false None;
       mkParsedQuestion "What is 2+2?" multiple_choice
         ["3"; "4"; "5"; "6"] (Some "4") 1 0 false None]
      None None = inr quiz
    /\ order_index <$> questions quiz = [0; 1]%Z.
Proof.
  edestruct (assemble_sorts
      [mkParsedQuestion "Capital of France?" multiple_choice
         ["Berlin"; "Paris"; "Rome"; "Madrid"] (Some "Paris") 1 1 false None;
       mkParsedQuestion "What is 2+2?" multiple_choice
         ["3"; "4"; "5"; "6"] (Some "4") 1 0 false None] None None)
    as (quiz & Hq & _ & _ & _ & Hidx).
  - discriminate.
  - cbn. apply Permutation_swap.
  - exists quiz. split; [exact Hq|exact Hidx].
Defined.

End ParserFacts.

(** ** Strings: [trim] and letter case *)

Module StringFacts.
Import JSString.

Lemma isSpace_lowerChar (c : ascii) : isSpace (lowerChar c) = isSpace c.
Proof. destruct c as [[] [] [] [] [] [] [] []]; reflexivity. Qed.

Lemma trimStart_clean (s : string) :
  match trimStart s with
  | EmptyString => True
  | String c _ => isSpace c = false
  end.
Proof.
  induction s as [|c s IH]; cbn; [exact I|].
  destruct (isSpace c) eqn:E; [exact IH|exact E].
Qed.

Lemma trimStart_id (s : string) :
  match s with
  | EmptyString => True
  | String c _ => isSpace c = false
  end ->
  trimStart s = s.
Proof. destruct s as [|c s]; cbn; [reflexivity|]. now intros ->. Qed.

Lemma trimEnd_clean (s : string) :
  match s with
  | EmptyString => True
  | String c _ => isSpace c = false
  end ->
  match trimEnd s with
  | EmptyString => True
  | String c _ => isSpace c = false
  end.
Proof.
  destruct s as [|c s]; cbn; [exact id|]. intros Hc.
  destruct (trimEnd s); [rewrite Hc|]; exact Hc.
Qed.

Lemma trimEnd_idem (s : string) : trimEnd (trimEnd s) = trimEnd s.
Proof.
  induction s as [|c s IH]; cbn; [reflexivity|].
  destruct (trimEnd s) as [|a t] eqn:E.
  - destruct (isSpace c) eqn:Hc; cbn; [reflexivity|]. now rewrite Hc.
  - cbn [trimEnd]. cbn [trimEnd] in IH. now rewrite IH.
Qed.

Lemma trim_idem (s : string) : trim (trim s) = trim s.
Proof.
  unfold trim.
  rewrite (trimStart_id (trimEnd (trimStart s))).
  - apply trimEnd_idem.
  - apply trimEnd_clean, trimStart_clean.
Qed.

Lemma trimStart_lower (s : string) :
  toLowerCase (trimStart s) = trimStart (toLowerCase s).
Proof.
  induction s as [|c s IH]; cbn; [reflexivity|].
  rewrite isSpace_lowerChar. destruct (isSpace c); [exact IH|reflexivity].
Qed.

Lemma trimEnd_lower (s : string) :
  toLowerCase (trimEnd s) = trimEnd (toLowerCase s).
Proof.
  induction s as [|c s IH]; cbn; [reflexivity|].
  fold (toLowerCase s). rewrite <- IH, isSpace_lowerChar.
  destruct (trimEnd s); cbn; [|reflexivity].
  now destruct (isSpace c).
Qed.

Lemma trim_lower (s : string) : toLowerCase (trim s) = trim (toLowerCase s).
Proof. unfold trim. now rewrite trimEnd_lower, trimStart_lower. Qed.

Lemma append_length (s t : string) :
  String.length (s +:+ t) = (String.length s + String.length t)%nat.
Proof.
  induction s as [|c s IH]; [reflexivity|].
  change (String c s +:+ t) with (String c (s +:+ t)). cbn. now rewrite IH.
Qed.

Lemma append_cancel_r (s s' t : string) : s +:+ t = s' +:+ t -> s = s'.
Proof.
  revert s'. induction s as [|c s IH]; intros [|c' s'] H.
  - reflexivity.
  - apply (f_equal String.length) in H. rewrite !append_length in H.
    cbn in H. lia.
  - apply (f_equal String.length) in H. rewrite !append_length in H.
    cbn in H. lia.
  - change (String c (s +:+ t) = String c' (s' +:+ t)) in H.
    injection H as -> H. f_equal. now apply IH.
Qed.

(** Decimal numerals of distinct naturals differ. *)
Lemma ofZ_nat_inj (i j : nat) : ofZ (Z.of_nat i) = ofZ (Z.of_nat j) -> i = j.
Proof.
  assert (H : forall n : nat,
             ofZ (Z.of_nat n) = NilZero.string_of_uint (N.to_uint (N.of_nat n))).
  { intros [|n]; reflexivity. }
  rewrite !H. intros E.
  apply (f_equal NilZero.uint_of_string) in E.
  rewrite !NilZero.usu in E.
  - injection E as E. apply DecimalN.Unsigned.to_uint_inj in E. lia.
  - destruct (N.of_nat j); [discriminate|]. apply DecimalPos.Unsigned.to_uint_nonnil.
  - destruct (N.of_nat i); [discriminate|]. apply DecimalPos.Unsigned.to_uint_nonnil.
Qed.

End StringFacts.

(** ** More on the grading engine *)

Module GradingExtras.
Import JSString AutoGrading GradingFacts.
Local Open Scope Q_scope.

(** *** Rounding and comparisons *)

Lemma round_zero : JSNumber.round 0 = 0.
Proof. reflexivity. Qed.

Lemma round_monotone (x y : Q) : x <= y -> JSNumber.round x <= JSNumber.round y.
Proof.
  intros H. unfold JSNumber.round. rewrite <- Zle_Qle.
  apply Qfloor_resp_le. now apply Qplus_le_l.
Qed.

Lemma hundredth_monotone (x y : Q) : x <= y -> x / 100 <= y / 100.
Proof. intros H. apply Qmult_le_compat_r; [exact H|discriminate]. Qed.

Lemma rounded_nonneg (x : Q) : 0 <= x -> 0 <= JSNumber.round (x * 100) / 100.
Proof.
  intros H. apply Qle_trans with (JSNumber.round 0 / 100); [discriminate|].
  apply hundredth_monotone, round_monotone.
  rewrite <- (Qmult_0_l 100). apply Qmult_le_compat_r; [exact H|discriminate].
Qed.

Lemma gtb_false (x : Q) : x <= 0 -> JSNumber.gtb x 0 = false.
Proof.
  intros H. unfold JSNumber.gtb. apply Qle_bool_iff in H. now rewrite H.
Qed.

Lemma gtb_spec (x : Q) : JSNumber.gtb x 0 = true <-> 0 < x.
Proof.
  split; [|apply gtb_true].
  unfold JSNumber.gtb. destruct (Qle_bool x 0) eqn:E; [discriminate|].
  intros _. apply Qnot_le_lt. intros H. apply Qle_bool_iff in H. congruence.
Qed.

(** The review test on a percentage. *)
Lemma band_out (p : Q) :
  p == 0 \/ p == 100 -> JSNumber.geb p 40 && JSNumber.leb p 60 = false.
Proof.
  unfold JSNumber.geb, JSNumber.leb. intros [H|H].
  - destruct (Qle_bool 40 p) eqn:E; [|reflexivity].
    apply Qle_bool_iff in E. rewrite H in E. now exfalso.
  - destruct (Qle_bool p 60) eqn:E; [|now rewrite andb_false_r].
    apply Qle_bool_iff in E. rewrite H in E. now exfalso.
Qed.

(** *** The grading loop, for any response *)

Section Loop.
Variables (studentAnswer : string) (keywordWeightage : gmap string Q).

Let run := foldl (evaluateKeyword studentAnswer keywordWeightage).


Lemma run_none_found (ks : list string) (st : Tally) :
  Forall (fun k => containsKeyword studentAnswer k = false) ks ->
  earnedPoints (run st ks) = earnedPoints st.
Proof.
  revert st. induction ks as [|k ks IH]; intros st Hnone; cbn; [reflexivity|].
  inversion Hnone as [|? ? Hk Hks]; subst.
  subst run. cbn in IH. rewrite IH by exact Hks.
  unfold evaluateKeyword. now rewrite Hk.
Qed.

Lemma run_bounds (ks : list string) (st : Tally) :
  Forall (fun k => 0 < weightOf keywordWeightage k) ks ->
  0 <= earnedPoints st -> earnedPoints st <= maxPossiblePoints st ->
  0 <= earnedPoints (run st ks)
  /\ earnedPoints (run st ks) <= maxPossiblePoints (run st ks).
Proof.
  revert st. induction ks as [|k ks IH]; intros st Hpos H0 Hle; cbn; [now split|].
  inversion Hpos as [|? ? Hk Hks]; subst. apply Qlt_le_weak in Hk.
  apply IH; [exact Hks| |]; unfold evaluateKeyword; cbn;
    destruct (containsKeyword studentAnswer k).
  - rewrite <- (Qplus_0_r 0). now apply Qplus_le_compat.
  - exact H0.
  - now apply Qplus_le_l.
  - rewrite <- (Qplus_0_r (earnedPoints st)). now apply Qplus_le_compat.
Qed.

End Loop.

(** Two responses against one rubric: the possible points agree, and a
    response that finds at least the same keywords earns at least as
    much. *)
Lemma run_monotone (a a' : string) (kw : gmap string Q) (ks : list string)
    (st st' : Tally) :
  Forall (fun k => 0 < weightOf kw k) ks ->
  Forall (fun k => containsKeyword a k = true -> containsKeyword a' k = true) ks ->
  maxPossiblePoints st = maxPossiblePoints st' ->
  earnedPoints st <= earnedPoints st' ->
  maxPossiblePoints (foldl (evaluateKeyword a kw) st ks)
  = maxPossiblePoints (foldl (evaluateKeyword a' kw) st' ks)
  /\ earnedPoints (foldl (evaluateKeyword a kw) st ks)
     <= earnedPoints (foldl (evaluateKeyword a' kw) st' ks).
Proof.
  revert st st'. induction ks as [|k ks IH]; intros st st' Hpos Himp Hp He; cbn;
    [now split|].
  inversion Hpos as [|? ? Hk Hks]; subst. apply Qlt_le_weak in Hk.
  inversion Himp as [|? ? Hik Hiks]; subst.
  apply IH; [exact Hks|exact Hiks| |]; unfold evaluateKeyword; cbn.
  - now rewrite Hp.
  - destruct (containsKeyword a k).
    + rewrite (Hik eq_refl). now apply Qplus_le_l.
    + destruct (containsKeyword a' k); [|exact He].
      rewrite <- (Qplus_0_r (earnedPoints st)). now apply Qplus_le_compat.
Qed.

(** [gradeShortAnswer] past its guard. *)
Lemma grade_unfold (studentAnswer : string) (expectedKeywords : list string)
    (keywordWeightage : gmap string Q) (totalPoints : Q) :
  studentAnswer <> "" -> expectedKeywords <> [] ->
  gradeShortAnswer studentAnswer expectedKeywords keywordWeightage totalPoints
  = let st := foldl (evaluateKeyword studentAnswer keywordWeightage)
                    (mkTally [] 0 0) expectedKeywords in
    {| score :=
         JSNumber.round
           ((if JSNumber.gtb (maxPossiblePoints st) 0
             then (earnedPoints st / maxPossiblePoints st) * totalPoints
             else 0) * 100) / 100;
       maxScore := totalPoints;
       percentage :=
         if JSNumber.gtb (maxPossiblePoints st) 0
         then (earnedPoints st / maxPossiblePoints st) * 100
         else 0;
       matchedKeywords := matches st |}.
Proof.
  intros Ha Hks. unfold gradeShortAnswer.
  destruct (String.eqb_spec studentAnswer ""); [contradiction|].
  destruct expectedKeywords; [contradiction|]. reflexivity.
Qed.

Lemma grade_guard (studentAnswer : string) (expectedKeywords : list string)
    (keywordWeightage : gmap string Q) (totalPoints : Q) :
  studentAnswer = "" \/ expectedKeywords = [] ->
  gradeShortAnswer studentAnswer expectedKeywords keywordWeightage totalPoints
  = mkGradingResult 0 totalPoints 0 [].
Proof.
  intros [-> | ->]; unfold gradeShortAnswer; cbn; [reflexivity|].
  now rewrite orb_true_r.
Qed.

Lemma guard_cases (studentAnswer : string) (expectedKeywords : list string) :
  (studentAnswer = "" \/ expectedKeywords = [])
  \/ (studentAnswer <> "" /\ expectedKeywords <> []).
Proof.
  destruct (String.eqb_spec studentAnswer ""); [now left; left|].
  destruct expectedKeywords; [now left; right|]. right. now split.
Qed.

(** A fraction of the possible points. *)
Lemma fraction_bounds (e p : Q) :
  0 < p -> 0 <= e -> e <= p -> 0 <= e / p /\ e / p <= 1.
Proof.
  intros Hp H0 Hle. split.
  - apply Qle_shift_div_l; [exact Hp|]. now rewrite Qmult_0_l.
  - apply Qle_shift_div_r; [exact Hp|]. now rewrite Qmult_1_l.
Qed.

(** *** Letter case *)

Lemma lowerChar_idem (c : ascii) : lowerChar (lowerChar c) = lowerChar c.
Proof. destruct c as [[] [] [] [] [] [] [] []]; reflexivity. Qed.

Lemma toLowerCase_idem (s : string) : toLowerCase (toLowerCase s) = toLowerCase s.
Proof.
  induction s as [|c s IH]; cbn; [reflexivity|].
  fold (toLowerCase s). fold (toLowerCase (toLowerCase s)).
  now rewrite lowerChar_idem, IH.
Qed.

Lemma toLowerCase_empty (s : string) : toLowerCase s = "" <-> s = "".
Proof. destruct s; cbn; split; congruence. Qed.

Lemma containsKeyword_same_case (a a' keyword : string) :
  toLowerCase a = toLowerCase a' ->
  containsKeyword a keyword = containsKeyword a' keyword.
Proof. intros H. unfold containsKeyword, normalizeText. now rewrite H. Qed.

Lemma run_same_case (a a' : string) (kw : gmap string Q) (ks : list string)
    (st : Tally) :
  toLowerCase a = toLowerCase a' ->
  foldl (evaluateKeyword a kw) st ks = foldl (evaluateKeyword a' kw) st ks.
Proof.
  intros H. revert st. induction ks as [|k ks IH]; intros st; cbn; [reflexivity|].
  rewrite IH. unfold evaluateKeyword.
  now rewrite (containsKeyword_same_case a a' k H).
Qed.

(** *** Properties of [gradeShortAnswer] *)



(** Bounds of the result under positive weights. *)
Lemma grade_bounds (studentAnswer : string)
    (expectedKeywords : list string) (keywordWeightage : gmap string Q)
    (totalPoints : Q) :
  Forall (fun k => 0 < weightOf keywordWeightage k) expectedKeywords ->
  let r := gradeShortAnswer studentAnswer expectedKeywords keywordWeightage
             totalPoints in
  (0 <= percentage r /\ percentage r <= 100)
  /\ (0 <= totalPoints ->
      0 <= score r /\ score r <= JSNumber.round (totalPoints * 100) / 100).
Proof.
  intros Hpos r. subst r.
  destruct (guard_cases studentAnswer expectedKeywords) as [Hg|[Ha Hks]].
  - rewrite grade_guard by exact Hg. cbn [percentage score].
    split; [split; discriminate|]. intros HP. split; [discriminate|].
    now apply rounded_nonneg.
  - rewrite grade_unfold by assumption. cbv zeta. cbn [percentage score].
    set (st := foldl _ _ _).
    pose proof (run_possible_pos studentAnswer keywordWeightage expectedKeywords
                  Hks Hpos) as Hp.
    destruct (run_bounds studentAnswer keywordWeightage expectedKeywords
                (mkTally [] 0 0) Hpos) as [H0 Hle]; [apply Qle_refl..|].
    fold st in Hp, H0, Hle.
    rewrite (gtb_true _ Hp).
    destruct (fraction_bounds _ _ Hp H0 Hle) as [Hf0 Hf1].
    split; [split|intros HP; split].
    + rewrite <- (Qmult_0_l 100). apply Qmult_le_compat_r; [exact Hf0|discriminate].
    + rewrite <- (Qmult_1_l 100) at 2.
      apply Qmult_le_compat_r; [exact Hf1|discriminate].
    + apply rounded_nonneg.
      rewrite <- (Qmult_0_l totalPoints). now apply Qmult_le_compat_r.
    + apply hundredth_monotone, round_monotone.
      apply Qmult_le_compat_r; [|discriminate].
      rewrite <- (Qmult_1_l totalPoints) at 2. now apply Qmult_le_compat_r.
Qed.


(** X2: when every keyword has a positive weight, the percentage lies
    between 0 and 100 for every response; for [totalPoints >= 0] the
    score lies between 0 and [totalPoints] rounded to two decimals, hence
    is at most [totalPoints] when that has at most two decimals. *)
Theorem score_and_percentage_bounds (studentAnswer : string)
    (expectedKeywords : list string) (keywordWeightage : gmap string Q)
    (totalPoints : Q) :
  Forall (fun k => 0 < weightOf keywordWeightage k) expectedKeywords ->
  let r := gradeShortAnswer studentAnswer expectedKeywords keywordWeightage
             totalPoints in
  (0 <= percentage r /\ percentage r <= 100)
  /\ (0 <= totalPoints ->
      0 <= score r
      /\ score r <= JSNumber.round (totalPoints * 100) / 100
      /\ (forall z : Z, totalPoints * 100 == inject_Z z -> score r <= totalPoints)).
Proof.
  intros Hpos r.
  destruct (grade_bounds studentAnswer expectedKeywords keywordWeightage
              totalPoints Hpos) as [Hpct Hscore].
  split; [exact Hpct|]. intros HP. destruct (Hscore HP) as [H0 H1].
  repeat split; [exact H0|exact H1|]. intros z Hz.
  eapply Qle_trans; [exact H1|].
  rewrite (round_proper _ _ Hz), round_integer, <- Hz.
  apply Qle_lteq. right. field.
Qed.

Lemma score_and_percentage_bounds_witness :
  let r := gradeShortAnswer "Chlorophyll absorbs light"
             ["photosynthesis"; "chlorophyll"] {["photosynthesis" := 2]} 6 in
  (0 <= percentage r /\ percentage r <= 100)
  /\ (0 <= 6 ->
      0 <= score r
      /\ score r <= JSNumber.round (6 * 100) / 100
      /\ (forall z : Z, 6 * 100 == inject_Z z -> score r <= 6)).
Proof.
  apply score_and_percentage_bounds. repeat constructor.
Defined.

(** X3: a response in which no keyword is found scores 0 and has
    percentage 0, whatever the weights and the points. *)
Theorem no_keyword_found_scores_zero (studentAnswer : string)
    (expectedKeywords : list string) (keywordWeightage : gmap string Q)
    (totalPoints : Q) :
  Forall (fun k => containsKeyword studentAnswer k = false) expectedKeywords ->
  let r := gradeShortAnswer studentAnswer expectedKeywords keywordWeightage
             totalPoints in
  score r == 0 /\ percentage r == 0.
Proof.
  intros Hnone r. subst r.
  destruct (guard_cases studentAnswer expectedKeywords) as [Hg|[Ha Hks]].
  - rewrite grade_guard by exact Hg. split; reflexivity.
  - rewrite grade_unfold by assumption. cbv zeta. cbn [percentage score].
    rewrite (run_none_found studentAnswer keywordWeightage expectedKeywords
               (mkTally [] 0 0) Hnone).
    cbn [earnedPoints]. set (p := maxPossiblePoints _).
    assert (Hz : (if JSNumber.gtb p 0 then 0 / p * totalPoints else 0) * 100 == 0).
    { destruct (JSNumber.gtb p 0); [|reflexivity].
      unfold Qdiv. rewrite !Qmult_0_l. reflexivity. }
    split.
    + rewrite (round_proper _ _ Hz). reflexivity.
    + destruct (JSNumber.gtb p 0); [|reflexivity].
      unfold Qdiv. rewrite !Qmult_0_l. reflexivity.
Qed.

Lemma no_keyword_found_scores_zero_witness :
  let r := gradeShortAnswer "Plants grow using sunlight."
             ["photosynthesis"; "chlorophyll"] {["photosynthesis" := 2]} 6 in
  score r == 0 /\ percentage r == 0.
Proof.
  apply no_keyword_found_scores_zero. repeat constructor.
Defined.

(** Every keyword found, or one missed; none found, or one found. *)
Lemma all_or_one (f : string -> bool) (b : bool) (l : list string) :
  Forall (fun k => f k = b) l \/ Exists (fun k => f k = negb b) l.
Proof.
  induction l as [|k l [IH|IH]].
  - left. constructor.
  - destruct (f k) eqn:E, b; cbn;
      try (left; constructor; [exact E|exact IH]);
      right; now apply Exists_cons_hd.
  - right. now apply Exists_cons_tl.
Qed.

(** X4: whatever the weights, a result that requires manual review comes
    from a response that found at least one keyword and missed at least
    one: the empty response, all keywords and no keyword never require
    review. *)
Theorem review_needs_partial_match (studentAnswer : string)
    (expectedKeywords : list string) (keywordWeightage : gmap string Q)
    (totalPoints : Q) (reviewThreshold : option Q) :
  requiresManualReview
    (gradeShortAnswer studentAnswer expectedKeywords keywordWeightage totalPoints)
    reviewThreshold = true ->
  studentAnswer <> ""
  /\ Exists (fun k => containsKeyword studentAnswer k = true) expectedKeywords
  /\ Exists (fun k => containsKeyword studentAnswer k = false) expectedKeywords.
Proof.
  unfold requiresManualReview.
  destruct (JSNumber.geb _ 40 && JSNumber.leb _ 60) eqn:Hband; [|discriminate].
  intros _.
  destruct (guard_cases studentAnswer expectedKeywords) as [Hg|[Ha Hks]].
  { rewrite grade_guard in Hband by exact Hg. discriminate. }
  split; [exact Ha|].
  rewrite grade_unfold in Hband by assumption.
  cbv zeta in Hband. cbn [percentage] in Hband.
  split.
  - destruct (all_or_one (containsKeyword studentAnswer) false expectedKeywords)
      as [Hnone|Hsome]; [|exact Hsome].
    rewrite (run_none_found studentAnswer keywordWeightage expectedKeywords
               (mkTally [] 0 0) Hnone) in Hband.
    rewrite band_out in Hband; [discriminate|]. left.
    destruct (JSNumber.gtb _ 0); [|reflexivity].
    cbn [earnedPoints]. unfold Qdiv. rewrite !Qmult_0_l. reflexivity.
  - destruct (all_or_one (containsKeyword studentAnswer) true expectedKeywords)
      as [Hall|Hmiss]; [|exact Hmiss].
    destruct (run_all_found studentAnswer keywordWeightage expectedKeywords
                (mkTally [] 0 0) Hall) as [_ Heq]; [constructor|reflexivity|].
    rewrite band_out in Hband; [discriminate|].
    destruct (JSNumber.gtb _ 0) eqn:Hp; [right|left; reflexivity].
    apply gtb_spec in Hp. rewrite Heq.
    rewrite Qmult_comm. unfold Qdiv. rewrite Qmult_assoc.
    rewrite <- (Qmult_assoc 100). rewrite Qmult_inv_r.
    + ring.
    + intros E. rewrite E in Hp. exact (Qlt_irrefl _ Hp).
Qed.

Lemma review_needs_partial_match_witness :
  "Leaves hold chlorophyll" <> ""
  /\ Exists (fun k => containsKeyword "Leaves hold chlorophyll" k = true)
       ["photosynthesis"; "chlorophyll"]
  /\ Exists (fun k => containsKeyword "Leaves hold chlorophyll" k = false)
       ["photosynthesis"; "chlorophyll"].
Proof.
  apply (review_needs_partial_match _ _ ∅ 10 None). vm_compute. reflexivity.
Defined.

(** X5: with positive weights and [totalPoints >= 0], a response that
    finds every keyword another response finds has at least its
    percentage and at least its score. *)
Theorem more_keywords_never_score_less (a a' : string)
    (expectedKeywords : list string) (keywordWeightage : gmap string Q)
    (totalPoints : Q) :
  a <> "" -> a' <> "" ->
  0 <= totalPoints ->
  Forall (fun k => 0 < weightOf keywordWeightage k) expectedKeywords ->
  Forall (fun k => containsKeyword a k = true -> containsKeyword a' k = true)
    expectedKeywords ->
  percentage (gradeShortAnswer a expectedKeywords keywordWeightage totalPoints)
  <= percentage (gradeShortAnswer a' expectedKeywords keywordWeightage totalPoints)
  /\ score (gradeShortAnswer a expectedKeywords keywordWeightage totalPoints)
     <= score (gradeShortAnswer a' expectedKeywords keywordWeightage totalPoints).
Proof.
  intros Ha Ha' HP Hpos Himp.
  destruct expectedKeywords as [|k0 ks0] eqn:E.
  { rewrite !grade_guard by now right. split; apply Qle_refl. }
  rewrite <- E in *. assert (Hks : expectedKeywords <> []) by congruence.
  rewrite !grade_unfold by assumption. cbv zeta. cbn [percentage score].
  destruct (run_monotone a a' keywordWeightage expectedKeywords
              (mkTally [] 0 0) (mkTally [] 0 0) Hpos Himp eq_refl (Qle_refl _))
    as [Hp He].
  pose proof (run_possible_pos a keywordWeightage expectedKeywords Hks Hpos) as Hp0.
  set (st := foldl (evaluateKeyword a _) _ _) in *.
  set (st' := foldl (evaluateKeyword a' _) _ _) in *.
  rewrite <- Hp. rewrite (gtb_true _ Hp0).
  assert (Hfrac : earnedPoints st / maxPossiblePoints st
                  <= earnedPoints st' / maxPossiblePoints st).
  { apply Qmult_le_compat_r; [exact He|].
    apply Qlt_le_weak, Qinv_lt_0_compat, Hp0. }
  split.
  - apply Qmult_le_compat_r; [exact Hfrac|discriminate].
  - apply hundredth_monotone, round_monotone.
    apply Qmult_le_compat_r; [|discriminate].
    now apply Qmult_le_compat_r.
Qed.

Lemma more_keywords_never_score_less_witness :
  percentage (gradeShortAnswer "Leaves hold chlorophyll"
                ["photosynthesis"; "chlorophyll"] ∅ 6)
  <= percentage (gradeShortAnswer "Chlorophyll drives photosynthesis"
                   ["photosynthesis"; "chlorophyll"] ∅ 6)
  /\ score (gradeShortAnswer "Leaves hold chlorophyll"
              ["photosynthesis"; "chlorophyll"] ∅ 6)
     <= score (gradeShortAnswer "Chlorophyll drives photosynthesis"
                 ["photosynthesis"; "chlorophyll"] ∅ 6).
Proof.
  apply more_keywords_never_score_less;
    [discriminate|discriminate|discriminate| |]; repeat constructor.
Defined.

(** X6: two responses that differ in letter case only get the same
    result: the same score, percentage and match list. *)
Theorem grading_ignores_letter_case (a a' : string)
    (expectedKeywords : list string) (keywordWeightage : gmap string Q)
    (totalPoints : Q) :
  toLowerCase a = toLowerCase a' ->
  gradeShortAnswer a expectedKeywords keywordWeightage totalPoints
  = gradeShortAnswer a' expectedKeywords keywordWeightage totalPoints.
Proof.
  intros H. unfold gradeShortAnswer.
  assert (Hempty : String.eqb a "" = String.eqb a' "").
  { destruct a, a'; cbn in *; congruence. }
  rewrite Hempty.
  now rewrite (run_same_case a a' keywordWeightage expectedKeywords _ H).
Qed.

Lemma grading_ignores_letter_case_witness :
  toLowerCase "DNA Replication" = toLowerCase "dna replication"
  /\ gradeShortAnswer "DNA Replication" ["replication"] ∅ 5
     = gradeShortAnswer "dna replication" ["replication"] ∅ 5.
Proof.
  split; [reflexivity|]. now apply grading_ignores_letter_case.
Defined.

End GradingExtras.

(** ** More on the extraction engine *)

Module ParserExtras.
Import JSString RegExp Pdf LoopFacts RegExpFacts ParserFacts.

(** *** What [exec] returns *)

Lemma execFrom_matchAt (re : RegExp.t) (s : string) (sticky : bool)
    (fuel start : nat) (m : MatchResult) :
  execFrom re s sticky fuel start = Some m ->
  exists y,
    matchAt s (flags re) (source re) (index m) = Some y
    /\ groups m = <[0 := slice s (index m) (endIndex y)]> (captures y).
Proof.
  revert start. induction fuel as [|fuel IH]; intros start;
    rewrite execFrom_unfold;
    destruct (String.length s <? start)%nat; try discriminate;
    (destruct (matchAt s (flags re) (source re) start) as [y|] eqn:E;
     [intros [= <-]; exists y; cbn; now split|]);
    destruct sticky; try discriminate.
  apply IH.
Qed.

Lemma substring_one (s : string) (e : nat) (ch : ascii) :
  String.get e s = Some ch -> String.substring e 1 s = String ch "".
Proof.
  revert e. induction s as [|a s IH]; intros [|e]; cbn; try discriminate.
  - intros [= ->]. now destruct s.
  - apply IH.
Qed.

Lemma matcher_seq_tail (input : string) (fl : Flags) (r1 r2 : Pattern)
    (x : MatchState) (c : Continuation) (z : MatchState) :
  matcher input fl (Seq r1 r2) x c = Some z ->
  exists y, matcher input fl r2 y c = Some z.
Proof.
  cbn [matcher]. intros H.
  apply matcher_forward in H as (y & _ & H). eauto.
Qed.

(** A match that ends with a one-unit group captures that unit. *)
Lemma matcher_group_class (input : string) (fl : Flags) (n : nat)
    (negated : bool) (atoms : list ClassAtom) (x z : MatchState) :
  matcher input fl (Group n (Class negated atoms)) x Some = Some z ->
  exists ch,
    xorb negated (setMatches fl atoms ch) = true
    /\ captures z !! n = Some (String ch "").
Proof.
  cbn [matcher]. unfold unitMatcher.
  destruct (String.get (endIndex x) input) as [ch|] eqn:E; [|discriminate].
  destruct (xorb negated (setMatches fl atoms ch)) eqn:Hacc; [|discriminate].
  intros [= <-]. exists ch. split; [exact Hacc|]. cbn.
  rewrite lookup_insert_eq. f_equal. unfold slice.
  replace (S (endIndex x) - endIndex x)%nat with 1%nat by lia.
  now apply substring_one.
Qed.

(** The letter captured by the answer pattern. *)
Lemma answer_letter (block : string) (m : MatchResult) :
  match_ block RealPDFParser_Text.answerRegex = Some m ->
  exists ch,
    setMatches flag_i [CRange "A" "D"] ch = true
    /\ group 1 m = Some (String ch "").
Proof.
  unfold match_, exec. intros H.
  apply execFrom_matchAt in H as (y & Hy & Hg).
  unfold matchAt, RealPDFParser_Text.answerRegex in Hy.
  cbn [source flags seqs] in Hy.
  do 4 apply matcher_seq_tail in Hy as (? & Hy).
  apply matcher_group_class in Hy as (ch & Hacc & Hcap).
  exists ch. split; [exact Hacc|].
  unfold group. rewrite Hg, lookup_insert_ne by discriminate. exact Hcap.
Qed.

(** Under the [i] flag the class [[A-D]] accepts the eight letters A-D
    and a-d, whose upper-case forms have the indexes 0 to 3. *)
Lemma answer_letter_index (ch : ascii) :
  setMatches flag_i [CRange "A" "D"] ch = true ->
  exists i : nat,
    (i < 4)%nat
    /\ RealPDFParser_Text.answerIndexOf (toUpperCase (String ch "")) = Z.of_nat i.
Proof.
  destruct ch as [[] [] [] [] [] [] [] []]; vm_compute; try discriminate; intros _;
    first [ exists 0%nat; split; [lia|reflexivity]
          | exists 1%nat; split; [lia|reflexivity]
          | exists 2%nat; split; [lia|reflexivity]
          | exists 3%nat; split; [lia|reflexivity] ].
Qed.

(** *** Records of the text revision *)

Lemma optionsOf_length (block : string) :
  List.length (RealPDFParser_Text.optionsOf block) = 4%nat.
Proof. reflexivity. Qed.

Lemma answerOf_cases (block : string) (opts : list string) :
  RealPDFParser_Text.answerOf block opts = ""
  \/ RealPDFParser_Text.answerOf block opts ∈ opts.
Proof.
  unfold RealPDFParser_Text.answerOf.
  destruct (match_ block RealPDFParser_Text.answerRegex) as [m|]; [|now left].
  set (i := RealPDFParser_Text.answerIndexOf _).
  destruct ((0 <=? i)%Z && (i <? Z.of_nat (List.length opts))%Z) eqn:E; [|now left].
  right. apply andb_true_iff in E as [H0 H1].
  apply Z.leb_le in H0. apply Z.ltb_lt in H1.
  apply list_elem_of_In, nth_In. lia.
Qed.

(** The correct answer of a record is one of its options. *)
Lemma processBlock_answer (block : string) (q : ParsedQuestion) :
  pushed (RealPDFParser_Text.processBlock block) = Some q ->
  exists answer,
    correct_answer q = Some answer /\ answer ∈ options q /\ answer <> "".
Proof.
  intros Hq.
  destruct (processBlock_pushed _ _ Hq) as (numMatch & textMatch & _ & _ & Hopts & ->).
  cbn [correct_answer options]. eexists. split; [reflexivity|].
  assert (Hin : (if String.eqb (RealPDFParser_Text.answerOf block
                                  (RealPDFParser_Text.optionsOf block)) ""
                 then nth 0 (RealPDFParser_Text.optionsOf block) ""
                 else RealPDFParser_Text.answerOf block
                        (RealPDFParser_Text.optionsOf block))
                ∈ RealPDFParser_Text.optionsOf block).
  { destruct (String.eqb_spec (RealPDFParser_Text.answerOf block
                                 (RealPDFParser_Text.optionsOf block)) "") as [E|E].
    - apply list_elem_of_In, nth_In. rewrite optionsOf_length. lia.
    - destruct (answerOf_cases block (RealPDFParser_Text.optionsOf block));
        [contradiction|assumption]. }
  split; [exact Hin|].
  rewrite Forall_forall in Hopts. now apply Hopts.
Qed.


(** The records of a parsed quiz come from blocks. *)
Lemma text_parse_record (pdf : Document) (quizTitle quizDescription : option string)
    (quiz : ParsedQuiz) (q : ParsedQuestion) :
  RealPDFParser_Text.parseQuizFromPDF pdf quizTitle quizDescription = inr quiz ->
  q ∈ questions quiz ->
  exists block, pushed (RealPDFParser_Text.processBlock block) = Some q.
Proof.
  unfold RealPDFParser_Text.parseQuizFromPDF, RealPDFParser_Text.assemble,
    RealPDFParser_Text.extractFromText.
  destruct (List.length _ =? 0)%nat; [discriminate|].
  intros [= <-]. cbn [questions].
  rewrite sort_Permutation, runTurns_fst. intros Hq.
  apply list_elem_of_omap in Hq as (block & _ & Hpushed). eauto.
Qed.

(** X7: in the text revision the correct answer of every question of a
    parsed quiz is one of its four options and is not empty, with or
    without an answer marker in its block. *)
Theorem correct_answer_is_an_option (pdf : Document)
    (quizTitle quizDescription : option string) (quiz : ParsedQuiz) :
  RealPDFParser_Text.parseQuizFromPDF pdf quizTitle quizDescription = inr quiz ->
  Forall (fun q =>
            List.length (options q) = 4%nat
            /\ exists answer,
                 correct_answer q = Some answer
                 /\ answer ∈ options q /\ answer <> "")
         (questions quiz).
Proof.
  intros Hquiz. apply Forall_forall. intros q Hq.
  destruct (text_parse_record _ _ _ _ _ Hquiz Hq) as (block & Hb).
  split; [|exact (processBlock_answer _ _ Hb)].
  destruct (processBlock_pushed _ _ Hb) as (? & ? & _ & _ & _ & ->).
  reflexivity.
Qed.

Lemma correct_answer_is_an_option_witness :
  exists quiz,
    RealPDFParser_Text.parseQuizFromPDF
      [mkPage [TextItem "2. Capital of France? A. Berlin B. Paris C. Rome D. Madrid Answer: B"]
              Scenarios.png] None None = inr quiz
    /\ Forall (fun q => exists answer,
                  correct_answer q = Some answer /\ answer ∈ options q)
         (questions quiz).
Proof.
  eexists. split; [vm_compute; reflexivity|].
  eapply Forall_impl.
  - apply (correct_answer_is_an_option
             [mkPage [TextItem "2. Capital of France? A. Berlin B. Paris C. Rome D. Madrid Answer: B"]
                     Scenarios.png] None None).
    vm_compute. reflexivity.
  - cbn. intros q (_ & answer & H1 & H2 & _). eauto.
Defined.

(** X8: when the answer pattern matches in a parsed block, it has
    captured one letter among A-D and a-d, and the correct answer of
    the record is the option at the index of that letter (A or a is
    index 0): the fallback to the first option is not taken. *)
Theorem marker_letter_selects_option (block : string) (q : ParsedQuestion)
    (m : MatchResult) :
  pushed (RealPDFParser_Text.processBlock block) = Some q ->
  match_ block RealPDFParser_Text.answerRegex = Some m ->
  exists (letter : ascii) (i : nat),
    group 1 m = Some (String letter "")
    /\ (i < 4)%nat
    /\ Z.of_N (code (upperChar letter)) = (65 + Z.of_nat i)%Z
    /\ is_Some (options q !! i)
    /\ correct_answer q = options q !! i.
Proof.
  intros Hq Hm.
  destruct (processBlock_pushed _ _ Hq) as (numMatch & textMatch & _ & _ & Hopts & ->).
  destruct (answer_letter _ _ Hm) as (ch & Hacc & Hg).
  destruct (answer_letter_index _ Hacc) as (i & Hi & Hidx).
  exists ch, i. split; [exact Hg|]. split; [exact Hi|].
  split; [cbn in Hidx; lia|].
  cbn [correct_answer options].
  set (opts := RealPDFParser_Text.optionsOf block) in *.
  assert (Hlen : List.length opts = 4%nat) by reflexivity.
  destruct (lookup_lt_is_Some_2 opts i) as [o Ho]; [lia|].
  split; [eauto|]. rewrite Ho. f_equal.
  assert (Hans : RealPDFParser_Text.answerOf block opts = o).
  { unfold RealPDFParser_Text.answerOf. rewrite Hm. cbv zeta.
    unfold text. rewrite Hg.
    change (default "" (Some (String ch ""))) with (String ch "").
    rewrite Hidx, Hlen.
    destruct (Z.leb_spec 0 (Z.of_nat i)); [|lia].
    destruct (Z.ltb_spec (Z.of_nat i) (Z.of_nat 4)); [|lia].
    cbn [andb]. rewrite Nat2Z.id.
    rewrite nth_lookup, Ho. reflexivity. }
  rewrite Hans.
  destruct (String.eqb_spec o "") as [->|_]; [|reflexivity].
  rewrite Forall_forall in Hopts. exfalso.
  apply (Hopts ""); [|reflexivity]. eapply list_elem_of_lookup_2. exact Ho.
Qed.

Lemma marker_letter_selects_option_witness :
  exists (letter : ascii) (i : nat),
    Some "c" = Some (String letter "")
    /\ (i < 4)%nat
    /\ Z.of_N (code (upperChar letter)) = (65 + Z.of_nat i)%Z
    /\ is_Some (["x"; "y"; "z"; "w"] !! i)
    /\ Some "z" = ["x"; "y"; "z"; "w"] !! i.
Proof.
  pose (block := "7. Which? A) x B) y C) z D) w Correct: c").
  pose (q := mkParsedQuestion "Which? A) x B) y C) z D) w Correct: c"
               multiple_choice ["x"; "y"; "z"; "w"] (Some "z") 1 6 false None).
  pose (m := mkResult 30 40 (<[0 := "Correct: c"]> (<[1 := "c"]> ∅))).
  assert (Hq : pushed (RealPDFParser_Text.processBlock block) = Some q)
    by (vm_compute; reflexivity).
  assert (Hm : match_ block RealPDFParser_Text.answerRegex = Some m)
    by (vm_compute; reflexivity).
  exact (marker_letter_selects_option block q m Hq Hm).
Defined.

(** *** Whole documents *)

Lemma orElse_nonempty (x : option string) (d : string) :
  d <> "" -> JSArray.orElse x d <> "".
Proof.
  intros Hd. unfold JSArray.orElse. destruct x as [s|]; [|exact Hd].
  destruct (String.eqb_spec s ""); [exact Hd|assumption].
Qed.

(** X9: the text revision never returns a quiz without questions.  It
    fails, with the message "Failed to parse PDF: No questions detected
    ...", exactly when no block yields a record; otherwise the quiz holds
    the extracted records, all of them, in ascending order of
    [order_index], lasts 90 minutes and has a title that is not empty. *)
Theorem text_parse_outcome (pdf : Document)
    (quizTitle quizDescription : option string) :
  let extracted :=
    fst (RealPDFParser_Text.extractFromText (RealPDFParser_Text.allTextOf pdf)) in
  match RealPDFParser_Text.parseQuizFromPDF pdf quizTitle quizDescription with
  | inl message =>
      extracted = []
      /\ message = "Failed to parse PDF: " +:+ RealPDFParser_Text.noQuestions
  | inr quiz =>
      questions quiz <> []
      /\ questions quiz ≡ₚ extracted
      /\ StronglySorted (fun a b => (order_index a <= order_index b)%Z)
           (questions quiz)
      /\ duration quiz = 90%Z
      /\ title quiz <> ""
  end.
Proof.
  intros extracted.
  unfold RealPDFParser_Text.parseQuizFromPDF, RealPDFParser_Text.assemble.
  fold extracted. destruct extracted as [|q0 rest] eqn:E; cbn [List.length Nat.eqb].
  - now split.
  - rewrite <- E. cbn [questions duration title].
    assert (Hperm : JSArray.sort byOrderIndex extracted ≡ₚ extracted)
      by apply sort_Permutation.
    repeat split.
    + intros Hnil. rewrite Hnil, E in Hperm.
      now apply Permutation_nil_cons in Hperm.
    + exact Hperm.
    + apply sort_sorted.
    + now apply orElse_nonempty.
Qed.

(** *** Records of the page-image revision *)

Lemma extractOptions_nonempty (pageText : string) :
  Forall (fun opt => opt <> "") (RealPDFParser_PageImage.extractOptions pageText).
Proof.
  unfold RealPDFParser_PageImage.extractOptions.
  enough (H : forall (letters : list ascii) (acc : list string),
             Forall (fun opt => opt <> "") acc ->
             Forall (fun opt => opt <> "")
               (foldl (fun options letter =>
                  match match_ pageText (RealPDFParser_PageImage.optionRegex letter) with
                  | Some optionMatch =>
                      let cleanOption :=
                        replace (trim (text 1 optionMatch)) whitespaceRun " " in
                      if negb (String.eqb cleanOption "")
                         && negb (test RealPDFParser_PageImage.leadingNumber cleanOption)
                      then options ++ [cleanOption]
                      else options
                  | None => options
                  end) acc letters))
    by (apply H; constructor).
  induction letters as [|letter letters IH]; intros acc Hacc;
    cbn [foldl]; [exact Hacc|].
  apply IH.
  destruct (match_ pageText (RealPDFParser_PageImage.optionRegex letter)) as [m|];
    [|exact Hacc].
  cbv zeta.
  destruct (String.eqb_spec
              (replace (trim (text 1 m)) whitespaceRun " ") "") as [|Hne];
    cbn [negb andb]; [exact Hacc|].
  destruct (test RealPDFParser_PageImage.leadingNumber _); cbn [negb];
    [exact Hacc|].
  apply Forall_app. split; [exact Hacc|]. now constructor.
Qed.

Lemma detect_number (page : Page) (questionNum : Z) (questionText : string) :
  RealPDFParser_PageImage.detect page = Some (questionNum, questionText) ->
  (1 <= questionNum)%Z /\ questionText <> "".
Proof.
  unfold RealPDFParser_PageImage.detect.
  destruct (RealPDFParser_PageImage.findQuestion _ 0) as [[[n t] i]|] eqn:E;
    [|discriminate].
  assert (Hn : (0 <= n)%Z).
  { clear -E. revert E. generalize 0%nat.
    induction (RealPDFParser_PageImage.linesOf (pageText page)) as [|line rest IH];
      intros k; cbn; [discriminate|].
    destruct (match_ line RealPDFParser_PageImage.questionLine).
    - intros [= <- _ _]. unfold parseInt. lia.
    - apply IH. }
  destruct (Z.eqb_spec n 0); [discriminate|].
  match goal with
  | |- context [String.eqb ?s ""] => destruct (String.eqb_spec s "")
  end; [discriminate|].
  intros [= <- <-]. split; [lia|assumption].
Qed.

(** What [processPage] pushes. *)
Lemma processPage_well_formed (page : Page) (q : ParsedQuestion) :
  pushed (RealPDFParser_PageImage.processPage page) = Some q ->
  question_text q <> ""
  /\ (0 <= order_index q)%Z
  /\ List.length (options q) = 4%nat
  /\ Forall (fun opt => opt <> "") (options q)
  /\ correct_answer q = Some ""
  /\ question_type q = multiple_choice.
Proof.
  intros Hpushed.
  destruct (RealPDFParser_PageImage.detect page) as [[n t]|] eqn:Hd.
  - rewrite (processPage_detected _ _ _ Hd) in Hpushed.
    injection Hpushed as <-.
    cbn [question_text order_index options correct_answer question_type].
    destruct (detect_number _ _ _ Hd) as [Hn Ht].
    split; [exact Ht|]. split; [lia|].
    destruct (Nat.eqb_spec
                (List.length (RealPDFParser_PageImage.extractOptions (pageText page)))
                4) as [E|_].
    + repeat split; [exact E|apply extractOptions_nonempty].
    + repeat split. repeat constructor; discriminate.
  - rewrite (processPage_undetected _ Hd) in Hpushed. discriminate.
Qed.

(** The records of a parsed quiz come from pages after the first. *)
Lemma page_parse_record (pdf : Document) (quizTitle quizDescription : option string)
    (quiz : ParsedQuiz) (q : ParsedQuestion) :
  RealPDFParser_PageImage.parseQuizFromPDF pdf quizTitle quizDescription = inr quiz ->
  q ∈ questions quiz ->
  exists page,
    page ∈ drop 1 pdf /\ pushed (RealPDFParser_PageImage.processPage page) = Some q.
Proof.
  unfold RealPDFParser_PageImage.parseQuizFromPDF, RealPDFParser_PageImage.assemble,
    RealPDFParser_PageImage.extractQuestions.
  destruct (List.length _ =? 0)%nat; [discriminate|].
  intros [= <-]. cbn [questions].
  rewrite sort_Permutation, runTurns_fst. intros Hq.
  apply list_elem_of_omap in Hq as (page & Hpage & Hpushed). eauto.
Qed.

(** X10: in the page-image revision every record of a parsed quiz has a
    question text that is not empty, an order index of at least 0 (a
    page numbered 0 is skipped) and four options none of which is the
    empty string. *)
Theorem page_image_records_well_formed (pdf : Document)
    (quizTitle quizDescription : option string) (quiz : ParsedQuiz) :
  RealPDFParser_PageImage.parseQuizFromPDF pdf quizTitle quizDescription
  = inr quiz ->
  Forall (fun q =>
            question_text q <> ""
            /\ (0 <= order_index q)%Z
            /\ List.length (options q) = 4%nat
            /\ Forall (fun opt => opt <> "") (options q))
         (questions quiz).
Proof.
  intros Hquiz. apply Forall_forall. intros q Hq.
  destruct (page_parse_record _ _ _ _ _ Hquiz Hq) as (page & _ & Hpushed).
  destruct (processPage_well_formed _ _ Hpushed) as (H1 & H2 & H3 & H4 & _).
  now repeat split.
Qed.

Lemma page_image_records_well_formed_witness :
  exists quiz,
    RealPDFParser_PageImage.parseQuizFromPDF Scenarios.examPdf None None = inr quiz
    /\ Forall (fun q => (0 <= order_index q)%Z
                        /\ Forall (fun opt => opt <> "") (options q))
         (questions quiz).
Proof.
  eexists. split; [vm_compute; reflexivity|].
  eapply Forall_impl.
  - apply (page_image_records_well_formed Scenarios.examPdf None None).
    vm_compute. reflexivity.
  - cbn. intros q (_ & H1 & _ & H2). now split.
Defined.

(** X11: in the text revision the order index of a record is at least
    -1; a block numbered 0 is kept, with order index -1. *)
Theorem text_order_index_lower_bound (block : string) (q : ParsedQuestion) :
  pushed (RealPDFParser_Text.processBlock block) = Some q ->
  (-1 <= order_index q)%Z.
Proof.
  intros Hq.
  destruct (processBlock_pushed _ _ Hq) as (numMatch & textMatch & _ & _ & _ & ->).
  cbn [order_index]. unfold parseInt. lia.
Qed.

Lemma text_order_index_lower_bound_witness :
  let q := mkParsedQuestion "Warm-up?" multiple_choice ["a"; "b"; "c"; "d"]
             (Some "a") 1 (-1) false None in
  pushed (RealPDFParser_Text.processBlock "0. Warm-up? A. a B. b C. c D. d") = Some q
  /\ (-1 <= order_index q)%Z.
Proof.
  intros q.
  assert (Hq : pushed (RealPDFParser_Text.processBlock
                         "0. Warm-up? A. a B. b C. c D. d") = Some q)
    by (vm_compute; reflexivity).
  split; [exact Hq|].
  exact (text_order_index_lower_bound _ _ Hq).
Defined.

(** X12: the page-image revision never reads the first page: replacing
    it changes nothing, and a document of at most one page always fails
    with "No questions detected". *)
Theorem first_page_is_skipped :
  (forall (page page' : Page) (rest : Document) (quizTitle quizDescription : option string),
      RealPDFParser_PageImage.parseQuizFromPDF (page :: rest) quizTitle quizDescription
      = RealPDFParser_PageImage.parseQuizFromPDF (page' :: rest) quizTitle quizDescription)
  /\ (forall (pdf : Document) (quizTitle quizDescription : option string),
         (List.length pdf <= 1)%nat ->
         RealPDFParser_PageImage.parseQuizFromPDF pdf quizTitle quizDescription
         = inl ("Failed to parse PDF: " +:+ RealPDFParser_PageImage.noQuestions)).
Proof.
  split.
  - reflexivity.
  - intros [|page [|page' rest]] quizTitle quizDescription Hlen;
      [reflexivity|reflexivity|cbn in Hlen; lia].
Qed.

Lemma first_page_is_skipped_witness :
  RealPDFParser_PageImage.parseQuizFromPDF [Scenarios.fourOptionPage] None None
  = inl ("Failed to parse PDF: " +:+ RealPDFParser_PageImage.noQuestions).
Proof.
  destruct first_page_is_skipped as [_ H]. apply H. cbn. lia.
Defined.

(** *** Ties and warnings *)

Lemma filter_insert (k : Z) (x : ParsedQuestion) (l : list ParsedQuestion) :
  filter (fun q => order_index q = k) (JSArray.insert byOrderIndex x l)
  = filter (fun q => order_index q = k) (x :: l).
Proof.
  induction l as [|y l IH]; [reflexivity|].
  cbn [JSArray.insert]. unfold byOrderIndex at 1.
  destruct (Z.leb_spec (order_index x - order_index y) 0) as [Hle|Hgt];
    [reflexivity|].
  rewrite filter_cons, IH, !filter_cons.
  destruct (decide (order_index y = k)) as [Hy|Hy];
    destruct (decide (order_index x = k)) as [Hx|Hx]; try reflexivity.
  lia.
Qed.

(** X13: the sort of the assembly is stable: for every order index the
    records carrying it come out in the order in which they were
    extracted, so duplicate ordinals are kept and not reordered. *)
Theorem sort_keeps_encounter_order (k : Z) (l : list ParsedQuestion) :
  filter (fun q => order_index q = k) (JSArray.sort byOrderIndex l)
  = filter (fun q => order_index q = k) l.
Proof.
  induction l as [|x l IH]; [reflexivity|].
  cbn [JSArray.sort foldr]. fold (JSArray.sort byOrderIndex l).
  now rewrite filter_insert, !filter_cons, IH.
Qed.

Lemma runTurns_snd {X : Type} (body : X -> Turn) (xs : list X) :
  snd (runTurns body xs) = List.concat ((fun x => warned (body x)) <$> xs).
Proof.
  unfold runTurns.
  enough (H : forall acc,
             snd (foldl (fun acc x =>
                           let t := body x in
                           (fst acc ++ option_list (pushed t),
                            snd acc ++ warned t)) acc xs)
             = snd acc ++ List.concat ((fun x => warned (body x)) <$> xs))
    by (rewrite H; reflexivity).
  induction xs as [|x xs IH]; intros acc; cbn.
  - now rewrite app_nil_r.
  - rewrite IH. cbn. now rewrite <- app_assoc.
Qed.

Lemma processBlock_one_effect (block : string) :
  (List.length (option_list (pushed (RealPDFParser_Text.processBlock block)))
   + List.length (warned (RealPDFParser_Text.processBlock block)) <= 1)%nat.
Proof.
  unfold RealPDFParser_Text.processBlock.
  destruct (String.eqb (trim block) ""); [cbn; lia|].
  destruct (match_ block RealPDFParser_Text.blockNumber); [|cbn; lia].
  destruct (match_ block RealPDFParser_Text.questionTextRegex); [|cbn; lia].
  destruct (String.eqb _ "" || existsb _ _); cbn; lia.
Qed.

(** X14: in the text revision every block ends in at most one of a
    record and a warning: the records and the warnings together are no
    more than the blocks the text was split into. *)
Theorem records_and_warnings_bounded (allText : string) :
  let result := RealPDFParser_Text.extractFromText allText in
  (List.length (fst result) + List.length (snd result)
   <= List.length (RealPDFParser_Text.questionBlocksOf allText))%nat.
Proof.
  cbv zeta. unfold RealPDFParser_Text.extractFromText.
  rewrite runTurns_fst, runTurns_snd.
  induction (RealPDFParser_Text.questionBlocksOf allText) as [|block blocks IH];
    [cbn; lia|].
  pose proof (processBlock_one_effect block) as H1.
  rewrite fmap_cons. cbn [List.concat List.length]. rewrite length_app.
  change (omap (fun x => pushed (RealPDFParser_Text.processBlock x)) (block :: blocks))
    with (match pushed (RealPDFParser_Text.processBlock block) with
          | Some y => y :: omap (fun x => pushed (RealPDFParser_Text.processBlock x)) blocks
          | None => omap (fun x => pushed (RealPDFParser_Text.processBlock x)) blocks
          end).
  destruct (pushed (RealPDFParser_Text.processBlock block));
    simpl in H1; cbn [List.length]; lia.
Qed.

End ParserExtras.

(** ** Storing and importing a quiz *)

Module CreationExtras.
Import JSString Pdf StringFacts.

(** X15: within a quiz the images of two different question positions
    are stored under different names, so that an upload, which
    overwrites an existing file of the same name, never replaces the
    image of another question of the quiz. *)
Theorem storage_paths_distinct (quizId : string) (i j : nat) :
  i <> j -> QuizCreation.storagePath quizId i <> QuizCreation.storagePath quizId j.
Proof.
  intros Hij H. apply Hij. unfold QuizCreation.storagePath in H.
  do 3 apply String.app_inj in H.
  apply append_cancel_r in H. now apply ofZ_nat_inj.
Qed.

Lemma storage_paths_distinct_witness :
  QuizCreation.storagePath "8f14e45f" 9 <> QuizCreation.storagePath "8f14e45f" 10.
Proof. apply storage_paths_distinct. lia. Defined.

(** The row found for a question when the order indexes are distinct
    and the store returns one row per question, in order. *)
Lemma find_own_row (ids : list string) (questions : list ParsedQuestion)
    (i : nat) (q : ParsedQuestion) :
  List.length ids = List.length questions ->
  NoDup (order_index <$> questions) ->
  questions !! i = Some q ->
  List.find (fun r => (QuizCreation.inserted_order_index r =? order_index q)%Z)
    (zip_with QuizCreation.mkInserted ids (order_index <$> questions))
  = (fun rowId => QuizCreation.mkInserted rowId (order_index q)) <$> ids !! i.
Proof.
  revert ids i. induction questions as [|q0 qs IH]; intros ids i Hlen Hnd Hq.
  - discriminate.
  - destruct ids as [|id0 ids]; [discriminate|].
    rewrite fmap_cons in Hnd. apply NoDup_cons in Hnd as [Hfresh Hnd].
    cbn [fmap list_fmap zip_with List.find QuizCreation.inserted_order_index].
    destruct i as [|i].
    + injection Hq as ->. now rewrite Z.eqb_refl.
    + cbn in Hq.
      destruct (Z.eqb_spec (order_index q0) (order_index q)) as [E|_].
      * exfalso. apply Hfresh. rewrite E.
        apply list_elem_of_fmap. exists q. split; [reflexivity|].
        eapply list_elem_of_lookup_2. exact Hq.
      * change ((id0 :: ids) !! S i) with (ids !! i).
        apply IH; [cbn in Hlen; lia|exact Hnd|exact Hq].
Qed.

(** X16: when the order indexes of the questions are pairwise distinct
    and the store has returned one row per question, in order, the
    image of the question at position [i] is sent to the row of that
    question, under the public URL of [quiz-<id>/question-<i>.png];
    nothing is sent for a question without image or when the upload is
    refused. *)
Theorem image_goes_to_its_own_row (uploadOk : string -> bool)
    (publicUrl : string -> string) (quizId : string) (ids : list string)
    (questions : list ParsedQuestion) (i : nat) (q : ParsedQuestion)
    (rowId : string) :
  List.length ids = List.length questions ->
  NoDup (order_index <$> questions) ->
  questions !! i = Some q ->
  ids !! i = Some rowId ->
  QuizCreation.imagePatch uploadOk publicUrl quizId
    (zip_with QuizCreation.mkInserted ids (order_index <$> questions)) i q
  = if has_image q && bool_decide (is_Some (image_data q))
       && uploadOk (QuizCreation.storagePath quizId i)
    then Some (rowId, publicUrl (QuizCreation.storagePath quizId i))
    else None.
Proof.
  intros Hlen Hnd Hq Hid. unfold QuizCreation.imagePatch.
  rewrite (find_own_row ids questions i q Hlen Hnd Hq), Hid.
  destruct (has_image q); [|reflexivity].
  destruct (image_data q); [|reflexivity].
  cbn. now destruct (uploadOk _).
Qed.

Lemma image_goes_to_its_own_row_witness :
  let q1 := mkParsedQuestion "First" multiple_choice ["A"; "B"; "C"; "D"] (Some "")
              2 0 true (Some (mkImageData Scenarios.png "question_1.png")) in
  let q2 := mkParsedQuestion "Second" multiple_choice ["A"; "B"; "C"; "D"] (Some "")
              2 1 true (Some (mkImageData Scenarios.png "question_2.png")) in
  QuizCreation.imagePatch (fun _ => true) (fun path => "https://cdn/" +:+ path) "q7"
    (zip_with QuizCreation.mkInserted ["row-a"; "row-b"] (order_index <$> [q1; q2]))
    1 q2
  = Some ("row-b", "https://cdn/quiz-q7/question-1.png").
Proof.
  intros q1 q2.
  rewrite (image_goes_to_its_own_row (fun _ => true) (fun path => "https://cdn/" +:+ path)
             "q7" ["row-a"; "row-b"] [q1; q2] 1 q2 "row-b");
    [reflexivity|reflexivity| |reflexivity|reflexivity].
  cbn. apply NoDup_cons. split; [|apply NoDup_singleton].
  intros H0%list_elem_of_singleton. discriminate H0.
Defined.

(** X17: when [handleImport] goes through to [createQuizFromParsedData],
    the quiz row it leads to has the trimmed, non-empty title of the
    form, is published exactly when "publish immediately" is on, and is
    password protected exactly when "require password" is on, in which
    case the stored password is the trimmed one and is not empty. *)
Theorem import_creates_quiz_row (form : QuizImport.Form) (call : QuizImport.Call)
    (userId : option string) :
  QuizImport.handleImport form = inr call ->
  let row := QuizCreation.quizToInsert (QuizImport.quiz call)
               (Some (QuizImport.isPublished call))
               (QuizImport.accessPassword call) userId in
  QuizCreation.title row = trim (QuizImport.title form)
  /\ QuizCreation.title row <> ""
  /\ QuizCreation.status row
     = (if QuizImport.publishImmediately form then "published" else "draft")
  /\ QuizCreation.password_protected row = QuizImport.requirePassword form
  /\ QuizCreation.access_password row
     = (if QuizImport.requirePassword form
        then Some (trim (QuizImport.password form)) else None)
  /\ (QuizImport.requirePassword form = true ->
      trim (QuizImport.password form) <> "").
Proof.
  unfold QuizImport.handleImport.
  destruct (QuizImport.parsedQuiz form) as [parsed|]; [|discriminate].
  destruct (String.eqb_spec (trim (QuizImport.title form)) "") as [|Ht];
    [discriminate|].
  destruct (QuizImport.requirePassword form) eqn:Hreq; cbn [andb].
  - destruct (String.eqb_spec (trim (QuizImport.password form)) "") as [|Hp];
      [discriminate|].
    intros [= <-]. cbn.
    destruct (String.eqb_spec (trim (QuizImport.password form)) "");
      [contradiction|].
    now repeat split.
  - intros [= <-]. cbn. repeat split; [exact Ht|discriminate].
Qed.

Lemma import_creates_quiz_row_witness :
  let form := QuizImport.mkForm " Geometry 1 " "" 90 true " Exam2025 " false
                (Some (mkParsedQuiz "t" "d" 90 [])) in
  let row := QuizCreation.quizToInsert
               (mkParsedQuiz "Geometry 1" "" 90 []) (Some false)
               (Some "Exam2025") None in
  QuizCreation.title row = trim (QuizImport.title form)
  /\ QuizCreation.title row <> ""
  /\ QuizCreation.status row = "draft"
  /\ QuizCreation.password_protected row = true
  /\ QuizCreation.access_password row = Some (trim " Exam2025 ")
  /\ (true = true -> trim " Exam2025 " <> "").
Proof.
  intros form row.
  exact (import_creates_quiz_row form
           (QuizImport.mkCall (mkParsedQuiz "Geometry 1" "" 90 []) false
              (Some "Exam2025")) None eq_refl).
Defined.

End CreationExtras.

(** ** Grading a submitted attempt *)

Module TakingExtras.
Import JSString Pdf StringFacts GradingFacts GradingExtras ParserExtras.
Local Open Scope Q_scope.

Lemma integer_points_nonneg (p : Q) (z : Z) :
  (0 <= z)%Z -> p == inject_Z z -> 0 <= p.
Proof.
  intros Hz ->. change 0 with (inject_Z 0). now rewrite <- Zle_Qle.
Qed.

(** One answer earns between 0 and the points of its question. *)
Lemma gradeAnswer_bounds (q : QuizTaking.Question) (answer : string) :
  (exists z : Z, (0 <= z)%Z /\ QuizTaking.points q == inject_Z z) ->
  (forall ks kw,
      QuizTaking.expected_keywords q = Some ks ->
      QuizTaking.keyword_weightage q = Some kw ->
      Forall (fun k => 0 < AutoGrading.weightOf kw k) ks) ->
  0 <= QuizTaking.pointsEarned (QuizTaking.gradeAnswer q answer)
  /\ QuizTaking.pointsEarned (QuizTaking.gradeAnswer q answer) <= QuizTaking.points q.
Proof.
  intros (z & Hz & Hp) Hw.
  pose proof (integer_points_nonneg _ _ Hz Hp) as H0.
  unfold QuizTaking.gradeAnswer.
  destruct (String.eqb (QuizTaking.question_type q) "multiple-choice").
  { cbn [QuizTaking.pointsEarned].
    destruct (match QuizTaking.correct_answer q with Some c => _ | None => false end);
      split; try apply Qle_refl; exact H0. }
  destruct (String.eqb (QuizTaking.question_type q) "fill-blank").
  { cbn [QuizTaking.pointsEarned].
    destruct (match QuizTaking.correct_answer q with Some c => _ | None => false end);
      split; try apply Qle_refl; exact H0. }
  destruct (String.eqb (QuizTaking.question_type q) "short-answer");
    [|split; [apply Qle_refl|exact H0]].
  destruct (QuizTaking.expected_keywords q) as [ks|] eqn:Eks;
    [|split; [apply Qle_refl|exact H0]].
  destruct (QuizTaking.keyword_weightage q) as [kw|] eqn:Ekw;
    [|split; [apply Qle_refl|exact H0]].
  cbn [QuizTaking.pointsEarned].
  destruct (grade_bounds answer ks kw (QuizTaking.points q) (Hw ks kw eq_refl eq_refl))
    as [_ Hs].
  destruct (Hs H0) as [Hs0 Hs1]. split; [exact Hs0|].
  eapply Qle_trans; [exact Hs1|].
  assert (Hz100 : QuizTaking.points q * 100 == inject_Z (z * 100)).
  { rewrite Hp, inject_Z_mult. reflexivity. }
  rewrite (round_proper _ _ Hz100), round_integer, <- Hz100.
  apply Qle_lteq. right. field.
Qed.

Lemma findQuestion_In (questionsWithAnswers : option (list QuizTaking.Question))
    (questionId : string) (q : QuizTaking.Question) :
  QuizTaking.findQuestion questionsWithAnswers questionId = Some q ->
  exists qs, questionsWithAnswers = Some qs /\ q ∈ qs.
Proof.
  unfold QuizTaking.findQuestion. destruct questionsWithAnswers as [qs|];
    [|discriminate].
  intros H. apply find_some in H as [H _]. exists qs. split; [reflexivity|].
  now apply list_elem_of_In.
Qed.

(** X18: when the points of the questions are non-negative integers and
    the weights of their keywords are positive, every saved answer row
    earns at least 0, there is one row per answer, and the score written
    to the attempt lies between 0 and the maximum written with it. *)
Theorem attempt_score_bounds (attemptId : string)
    (questionsWithAnswers : option (list QuizTaking.Question))
    (answers : list (string * string)) :
  (forall qs q,
      questionsWithAnswers = Some qs -> q ∈ qs ->
      (exists z : Z, (0 <= z)%Z /\ QuizTaking.points q == inject_Z z)
      /\ (forall ks kw,
             QuizTaking.expected_keywords q = Some ks ->
             QuizTaking.keyword_weightage q = Some kw ->
             Forall (fun k => 0 < AutoGrading.weightOf kw k) ks)) ->
  let t := QuizTaking.gradeAttempt attemptId questionsWithAnswers answers in
  0 <= QuizTaking.totalScore t
  /\ QuizTaking.totalScore t <= QuizTaking.maxScore t
  /\ List.length (QuizTaking.answerData t) = List.length answers
  /\ Forall (fun row => 0 <= QuizTaking.points_earned row) (QuizTaking.answerData t).
Proof.
  intros Hwf. cbv zeta. unfold QuizTaking.gradeAttempt.
  enough (H : forall st,
             0 <= QuizTaking.totalScore st ->
             QuizTaking.totalScore st <= QuizTaking.maxScore st ->
             Forall (fun row => 0 <= QuizTaking.points_earned row)
               (QuizTaking.answerData st) ->
             let t := foldl (QuizTaking.gradeEntry attemptId questionsWithAnswers)
                        st answers in
             0 <= QuizTaking.totalScore t
             /\ QuizTaking.totalScore t <= QuizTaking.maxScore t
             /\ List.length (QuizTaking.answerData t)
                = (List.length (QuizTaking.answerData st) + List.length answers)%nat
             /\ Forall (fun row => 0 <= QuizTaking.points_earned row)
                  (QuizTaking.answerData t)).
  { apply (H (QuizTaking.mkTotals [] 0 0)); [apply Qle_refl..|constructor]. }
  induction answers as [|[questionId answer] answers IH]; intros st H0 Hle Hrows;
    cbv zeta; cbn [foldl].
  - repeat split; try assumption. cbn. lia.
  - set (st' := QuizTaking.gradeEntry attemptId questionsWithAnswers st
                  (questionId, answer)).
    assert (Hst' : 0 <= QuizTaking.totalScore st'
                   /\ QuizTaking.totalScore st' <= QuizTaking.maxScore st'
                   /\ List.length (QuizTaking.answerData st')
                      = S (List.length (QuizTaking.answerData st))
                   /\ Forall (fun row => 0 <= QuizTaking.points_earned row)
                        (QuizTaking.answerData st')).
    { subst st'. unfold QuizTaking.gradeEntry.
      destruct (QuizTaking.findQuestion questionsWithAnswers questionId)
        as [q|] eqn:Efind;
        cbn [QuizTaking.totalScore QuizTaking.maxScore QuizTaking.answerData].
      - destruct (findQuestion_In _ _ _ Efind) as (qs & Hqs & Hin).
        destruct (Hwf qs q Hqs Hin) as [Hint Hw].
        destruct (gradeAnswer_bounds q answer Hint Hw) as [Hg0 Hg1].
        repeat split.
        + rewrite <- (Qplus_0_r 0). now apply Qplus_le_compat.
        + now apply Qplus_le_compat.
        + rewrite length_app. cbn. lia.
        + apply Forall_app. split; [exact Hrows|]. constructor; [|constructor].
          exact Hg0.
      - repeat split; try assumption.
        + rewrite length_app. cbn. lia.
        + apply Forall_app. split; [exact Hrows|]. constructor; [|constructor].
          apply Qle_refl. }
    destruct Hst' as (H0' & Hle' & Hlen' & Hrows').
    destruct (IH st' H0' Hle' Hrows') as (I0 & I1 & I2 & I3).
    repeat split; try assumption. rewrite I2, Hlen'. cbn. lia.
Qed.

Lemma attempt_score_bounds_witness :
  let questions :=
    [QuizTaking.mkQuestion "q1" (Some "Paris") 1 "multiple-choice" None None;
     QuizTaking.mkQuestion "q2" None 4 "short-answer"
       (Some ["photosynthesis"; "chlorophyll"]) (Some ∅)] in
  let t := QuizTaking.gradeAttempt "attempt-1" (Some questions)
             [("q1", "Paris"); ("q2", "Leaves hold chlorophyll"); ("q9", "?")] in
  0 <= QuizTaking.totalScore t
  /\ QuizTaking.totalScore t <= QuizTaking.maxScore t
  /\ List.length (QuizTaking.answerData t) = 3%nat
  /\ Forall (fun row => 0 <= QuizTaking.points_earned row) (QuizTaking.answerData t).
Proof.
  intros questions.
  apply (attempt_score_bounds "attempt-1" (Some questions)
           [("q1", "Paris"); ("q2", "Leaves hold chlorophyll"); ("q9", "?")]).
  intros qs q [= <-] Hq. subst questions.
  apply elem_of_cons in Hq as [->|Hq];
    [|apply list_elem_of_singleton in Hq as ->].
  - split; [exists 1%Z; split; [lia|reflexivity]|]. discriminate.
  - split; [exists 4%Z; split; [lia|reflexivity]|].
    intros ks kw [= <-] [= <-]. repeat constructor.
Defined.

(** X19: a fill-in-the-blank answer is graded the same with or without
    surrounding white space and in lower case as in the case typed. *)
Theorem fill_blank_ignores_case_and_padding (q : QuizTaking.Question)
    (answer : string) :
  QuizTaking.question_type q = "fill-blank" ->
  QuizTaking.gradeAnswer q (trim answer) = QuizTaking.gradeAnswer q answer
  /\ QuizTaking.gradeAnswer q (toLowerCase answer) = QuizTaking.gradeAnswer q answer.
Proof.
  intros Ht. unfold QuizTaking.gradeAnswer. rewrite Ht.
  change (String.eqb "fill-blank" "multiple-choice") with false.
  change (String.eqb "fill-blank" "fill-blank") with true. cbv iota.
  now rewrite trim_lower, trim_idem, GradingExtras.toLowerCase_idem.
Qed.

Lemma fill_blank_ignores_case_and_padding_witness :
  let q := QuizTaking.mkQuestion "q3" (Some "Mitochondria") 2 "fill-blank" None None in
  QuizTaking.gradeAnswer q (trim "  MITOCHONDRIA ")
  = QuizTaking.gradeAnswer q "  MITOCHONDRIA "
  /\ QuizTaking.gradeAnswer q (toLowerCase "  MITOCHONDRIA ")
     = QuizTaking.gradeAnswer q "  MITOCHONDRIA ".
Proof.
  intros q. now apply fill_blank_ignores_case_and_padding.
Defined.

(** The rows inserted for the questions of a quiz. *)
Lemma inserted_row (quizId : string) (questions : list ParsedQuestion)
    (row : QuizCreation.QuestionInsert) :
  row ∈ QuizCreation.questionsToInsert quizId questions ->
  exists q,
    q ∈ questions
    /\ QuizCreation.question_type row = QuizCreation.typeName (question_type q)
    /\ QuizCreation.options row = options q
    /\ QuizCreation.correct_answer row = JSArray.orElse (correct_answer q) ""
    /\ QuizCreation.image_url row = None.
Proof.
  unfold QuizCreation.questionsToInsert. intros H.
  apply list_elem_of_fmap in H as (q & -> & Hq). exists q. now repeat split.
Qed.

(** X20: a quiz imported by the page-image revision cannot award points
    for its questions: each is stored as multiple choice with the empty
    string as correct answer, none of its options is empty, so whichever
    option is chosen is graded incorrect with 0 points. *)
Theorem page_image_quiz_never_scores (pdf : Document)
    (quizTitle quizDescription : option string) (quiz : ParsedQuiz)
    (quizId : string) (row : QuizCreation.QuestionInsert)
    (question : QuizTaking.Question) (opt : string) :
  RealPDFParser_PageImage.parseQuizFromPDF pdf quizTitle quizDescription
  = inr quiz ->
  row ∈ QuizCreation.questionsToInsert quizId (questions quiz) ->
  QuizTaking.question_type question = QuizCreation.question_type row ->
  QuizTaking.correct_answer question = Some (QuizCreation.correct_answer row) ->
  opt ∈ QuizCreation.options row ->
  QuizCreation.correct_answer row = ""
  /\ QuizTaking.gradeAnswer question opt = QuizTaking.mkGrade false 0 None false.
Proof.
  intros Hquiz Hrow Htype Hans Hopt.
  destruct (inserted_row _ _ _ Hrow) as (q & Hq & Hrt & Hro & Hrc & _).
  destruct (page_parse_record _ _ _ _ _ Hquiz Hq) as (page & _ & Hpushed).
  destruct (processPage_well_formed _ _ Hpushed)
    as (_ & _ & _ & Hne & Hc & Hty).
  rewrite Hc in Hrc. cbn in Hrc. split; [exact Hrc|].
  unfold QuizTaking.gradeAnswer. rewrite Htype, Hrt, Hty, Hans, Hrc.
  change (String.eqb (QuizCreation.typeName multiple_choice) "multiple-choice")
    with true. cbv iota.
  rewrite Hro in Hopt. rewrite Forall_forall in Hne.
  destruct (String.eqb_spec opt "") as [->|_]; [|reflexivity].
  exfalso. now apply (Hne "").
Qed.

Lemma page_image_quiz_never_scores_witness :
  let row := QuizCreation.mkQuestionInsert "quiz-1" "What is 2+2? A. 3 B. 4 C. 5 D. 6"
               "multiple-choice" ["3"; "4"; "5"; "6"] "" 2 0 true None in
  QuizCreation.correct_answer row = ""
  /\ QuizTaking.gradeAnswer
       (QuizTaking.mkQuestion "id-1" (Some "") 2 "multiple-choice" None None) "4"
     = QuizTaking.mkGrade false 0 None false.
Proof.
  intros row.
  eapply (page_image_quiz_never_scores Scenarios.examPdf None None _ "quiz-1" row).
  - vm_compute. reflexivity.
  - vm_compute. apply list_elem_of_here.
  - reflexivity.
  - reflexivity.
  - cbn. apply list_elem_of_further, list_elem_of_here.
Defined.

(** X21: in a quiz imported by the text revision every stored question
    has its correct answer among its options; choosing it is graded
    correct with the points of the question, and any other answer is
    graded incorrect with 0 points. *)
Theorem text_quiz_correct_option_scores (pdf : Document)
    (quizTitle quizDescription : option string) (quiz : ParsedQuiz)
    (quizId : string) (row : QuizCreation.QuestionInsert)
    (question : QuizTaking.Question) :
  RealPDFParser_Text.parseQuizFromPDF pdf quizTitle quizDescription = inr quiz ->
  row ∈ QuizCreation.questionsToInsert quizId (questions quiz) ->
  QuizTaking.question_type question = QuizCreation.question_type row ->
  QuizTaking.correct_answer question = Some (QuizCreation.correct_answer row) ->
  QuizCreation.correct_answer row ∈ QuizCreation.options row
  /\ QuizTaking.gradeAnswer question (QuizCreation.correct_answer row)
     = QuizTaking.mkGrade true (QuizTaking.points question) None false
  /\ (forall answer,
         answer <> QuizCreation.correct_answer row ->
         QuizTaking.gradeAnswer question answer
         = QuizTaking.mkGrade false 0 None false).
Proof.
  intros Hquiz Hrow Htype Hans.
  destruct (inserted_row _ _ _ Hrow) as (q & Hq & Hrt & Hro & Hrc & _).
  destruct (text_parse_record _ _ _ _ _ Hquiz Hq) as (block & Hpushed).
  destruct (processBlock_answer _ _ Hpushed) as (answer & Hc & Hin & Hne).
  assert (Hty : question_type q = multiple_choice)
    by (now destruct (question_type q)).
  rewrite Hc in Hrc. cbn in Hrc.
  destruct (String.eqb_spec answer ""); [contradiction|].
  split; [rewrite Hrc, Hro; exact Hin|].
  unfold QuizTaking.gradeAnswer. rewrite Htype, Hrt, Hty, Hans.
  change (String.eqb (QuizCreation.typeName multiple_choice) "multiple-choice")
    with true. cbv iota.
  split.
  - now rewrite String.eqb_refl.
  - intros a Ha. destruct (String.eqb_spec a (QuizCreation.correct_answer row));
      [contradiction|reflexivity].
Qed.

Lemma text_quiz_correct_option_scores_witness :
  let row := QuizCreation.mkQuestionInsert "quiz-2" "Capital of France?"
               "multiple-choice" ["Berlin"; "Paris"; "Rome"; "Madrid"] "Paris"
               1 1 false None in
  let question := QuizTaking.mkQuestion "id-2" (Some "Paris") 1 "multiple-choice"
                    None None in
  QuizCreation.correct_answer row ∈ QuizCreation.options row
  /\ QuizTaking.gradeAnswer question "Paris" = QuizTaking.mkGrade true 1 None false
  /\ (forall answer,
         answer <> "Paris" ->
         QuizTaking.gradeAnswer question answer
         = QuizTaking.mkGrade false 0 None false).
Proof.
  intros row question.
  eapply (text_quiz_correct_option_scores
            [mkPage [TextItem "2. Capital of France? A. Berlin B. Paris C. Rome D. Madrid Answer: B"]
                    Scenarios.png] None None _ "quiz-2" row question).
  - vm_compute. reflexivity.
  - vm_compute. apply list_elem_of_here.
  - reflexivity.
  - reflexivity.
Defined.

End TakingExtras.

(** ** The normalizer *)

Module NormalizeFacts.
Import JSString RegExp AutoGrading Normalized RegExpFacts StringFacts.

(** *** Positions in a string *)

Lemma append_assoc (s t u : string) : (s +:+ t) +:+ u = s +:+ (t +:+ u).
Proof.
  induction s as [|c s IH]; [reflexivity|].
  change (String c ((s +:+ t) +:+ u) = String c (s +:+ (t +:+ u))). now rewrite IH.
Qed.

Lemma append_unit (pre : string) (c : ascii) (suf : string) :
  pre +:+ String c suf = (pre +:+ String c "") +:+ suf.
Proof. now rewrite append_assoc. Qed.

Lemma append_empty (s : string) : s +:+ "" = s.
Proof.
  induction s as [|c s IH]; [reflexivity|].
  change (String c (s +:+ "") = String c s). now rewrite IH.
Qed.

Lemma get_append (pre suf : string) :
  String.get (String.length pre) (pre +:+ suf)
  = match suf with
    | EmptyString => None
    | String c _ => Some c
    end.
Proof.
  induction pre as [|a pre IH]; [now destruct suf|exact IH].
Qed.

Lemma substring_none (n : nat) (s : string) : substring n 0 s = "".
Proof. revert s. induction n as [|n IH]; intros [|c s]; cbn; auto. Qed.

Lemma substring_unit (n m : nat) (s : string) (c : ascii) :
  String.get n s = Some c ->
  substring n (S m) s = String c (substring (S n) m s).
Proof.
  revert s. induction n as [|n IH]; intros [|a s] H; cbn in H; try discriminate.
  - injection H as ->. cbn. now destruct s.
  - cbn [substring]. exact (IH s H).
Qed.

Lemma slice_none (s : string) (i : nat) : slice s i i = "".
Proof. unfold slice. rewrite Nat.sub_diag. apply substring_none. Qed.

Lemma slice_unit (s : string) (i j : nat) (c : ascii) :
  String.get i s = Some c -> (i < j)%nat ->
  slice s i j = String c (slice s (S i) j).
Proof.
  intros H Hij. unfold slice.
  replace (j - i)%nat with (S (j - S i)) by lia.
  now apply substring_unit.
Qed.

(** *** The search of [exec] *)

Section Search.
Variable re : RegExp.t.
Variable s : string.

Lemma exec_here (start : nat) (y : MatchState) :
  (start <= String.length s)%nat ->
  matchAt s (flags re) (source re) start = Some y ->
  exec re s start
  = Some (mkResult start (endIndex y)
            (<[0 := slice s start (endIndex y)]> (captures y))).
Proof.
  intros Hle Hy. unfold exec. rewrite execFrom_unfold, Hy.
  now destruct (Nat.ltb_spec (String.length s) start); [lia|].
Qed.

Lemma exec_skip (start : nat) :
  (start < String.length s)%nat ->
  matchAt s (flags re) (source re) start = None ->
  exec re s start = exec re s (S start).
Proof.
  intros Hlt Hy. unfold exec. rewrite execFrom_unfold, Hy.
  destruct (Nat.ltb_spec (String.length s) start); [lia|].
  now replace (String.length s - start)%nat with (S (String.length s - S start)) by lia.
Qed.

Lemma exec_end (start : nat) :
  (String.length s <= start)%nat ->
  matchAt s (flags re) (source re) start = None ->
  exec re s start = None.
Proof.
  intros Hle Hy. unfold exec. rewrite execFrom_unfold, Hy.
  replace (String.length s - start)%nat with 0%nat by lia.
  now destruct (String.length s <? start)%nat.
Qed.

Lemma allMatches_skip (fuel start : nat) :
  (start < String.length s)%nat ->
  matchAt s (flags re) (source re) start = None ->
  allMatches re s fuel start = allMatches re s fuel (S start).
Proof.
  intros Hlt Hy. destruct fuel as [|fuel]; [reflexivity|].
  now rewrite !allMatches_S, exec_skip.
Qed.

Lemma allMatches_head (fuel start : nat) :
  match allMatches re s fuel start with
  | [] => True
  | m :: _ => (start <= index m)%nat
  end.
Proof.
  destruct fuel as [|fuel]; [exact I|]. rewrite allMatches_S.
  destruct (exec re s start) as [m|] eqn:E; [|exact I].
  apply execFrom_bounds in E.
  destruct (global (flags re)); lia.
Qed.

Lemma substitute_skip (replacement : string) (ms : list MatchResult)
    (start : nat) (c : ascii) :
  String.get start s = Some c ->
  match ms with
  | [] => True
  | m :: _ => (S start <= index m)%nat
  end ->
  substitute s replacement ms start
  = String c (substitute s replacement ms (S start)).
Proof.
  intros Hc Hms. pose proof (get_Some_lt _ _ _ Hc) as Hlt.
  destruct ms as [|m ms]; cbn [substitute].
  - now apply slice_unit.
  - destruct (Nat.leb_spec start (index m)); [|lia].
    destruct (Nat.leb_spec (S start) (index m)); [|lia].
    now rewrite (slice_unit s start (index m) c).
Qed.

End Search.
(** *** A global replacement by a pattern of one unit *)

Section Units.
Variable re : RegExp.t.
Variable accepts : ascii -> bool.
Variable r : ascii.
Hypothesis re_global : global (flags re) = true.
Hypothesis re_unit : forall s i,
  matchAt s (flags re) (source re) i
  = match String.get i s with
    | Some ch => if accepts ch then Some (mkState (S i) ∅) else None
    | None => None
    end.

Lemma replace_units_from (suf pre : string) (fuel : nat) :
  (String.length suf < fuel)%nat ->
  substitute (pre +:+ suf) (String r "")
    (allMatches re (pre +:+ suf) fuel (String.length pre)) (String.length pre)
  = mapChars (fun c => if accepts c then r else c) suf.
Proof.
  revert pre fuel. induction suf as [|c suf IH]; intros pre fuel Hfuel.
  - destruct fuel as [|fuel]; [cbn in Hfuel; lia|].
    rewrite allMatches_S, exec_end.
    + cbn [substitute]. rewrite append_empty. apply slice_none.
    + rewrite append_length; cbn; lia.
    + rewrite re_unit, get_append. reflexivity.
  - pose proof (get_append pre (String c suf)) as Hget. cbn in Hget.
    assert (Hlen : String.length (pre +:+ String c suf)
                   = (String.length pre + S (String.length suf))%nat)
      by (rewrite append_length; reflexivity).
    assert (Hnext : forall fuel', (String.length suf < fuel')%nat ->
              substitute (pre +:+ String c suf) (String r "")
                (allMatches re (pre +:+ String c suf) fuel' (S (String.length pre)))
                (S (String.length pre))
              = mapChars (fun c => if accepts c then r else c) suf).
    { intros fuel' Hfuel'. specialize (IH (pre +:+ String c "") fuel' Hfuel').
      rewrite <- append_unit, append_length in IH. cbn [String.length] in IH.
      now rewrite Nat.add_1_r in IH. }
    cbn [mapChars String.length] in *. destruct (accepts c) eqn:Hc.
    + destruct fuel as [|fuel]; [lia|].
      rewrite allMatches_S.
      rewrite (exec_here re _ _ (mkState (S (String.length pre)) ∅));
        [| lia | now rewrite re_unit, Hget, Hc].
      rewrite re_global. cbn [lastIndex index endIndex].
      destruct (Nat.eqb_spec (S (String.length pre)) (String.length pre)); [lia|].
      cbn [substitute index lastIndex]. rewrite Nat.leb_refl, slice_none.
      rewrite Hnext by lia. reflexivity.
    + rewrite allMatches_skip; [| lia | now rewrite re_unit, Hget, Hc].
      rewrite (substitute_skip _ _ _ _ c Hget).
      * rewrite Hnext by lia. reflexivity.
      * apply allMatches_head.
Qed.

Lemma replace_units (s : string) :
  replace s re (String r "") = mapChars (fun c => if accepts c then r else c) s.
Proof.
  unfold replace. apply (replace_units_from s ""). lia.
Qed.

End Units.

(** *** A global replacement of the runs of white space *)

Lemma trimStart_length (s : string) :
  (String.length (trimStart s) <= String.length s)%nat.
Proof.
  induction s as [|c s IH]; cbn; [lia|]. destruct (isSpace c); cbn; lia.
Qed.

Lemma trimStart_split (s : string) : exists run, s = run +:+ trimStart s.
Proof.
  induction s as [|c s [run IH]]; cbn.
  - now exists "".
  - destruct (isSpace c).
    + exists (String c run).
      change (String c s = String c (run +:+ trimStart s)). now f_equal.
    + now exists "".
Qed.

Lemma collapse_in_run (s : string) :
  collapseFrom true s = collapse (trimStart s).
Proof.
  induction s as [|c s IH]; cbn; [reflexivity|].
  destruct (isSpace c) eqn:Hc; [exact IH|]. cbn. now rewrite Hc.
Qed.

Section Runs.
Variable accepts : ascii -> bool.
Hypothesis accepts_space : forall c, accepts c = isSpace c.

(** The greedy star or plus of a white-space unit takes the whole run
    at its position. *)
Lemma repeat_run (suf pre : string) (lo fuel : nat) (caps : gmap nat string) :
  (String.length suf < fuel)%nat ->
  repeatMatcher fuel (unitMatcher (pre +:+ suf) accepts) lo None true []
    (mkState (String.length pre) caps) Some
  = if (lo <=? String.length suf - String.length (trimStart suf))%nat
    then Some (mkState (String.length pre
                        + (String.length suf - String.length (trimStart suf)))
                 caps)
    else None.
Proof.
  revert pre lo fuel. induction suf as [|c suf IH]; intros pre lo fuel Hfuel;
    (destruct fuel as [|fuel]; [cbn in Hfuel; lia|]);
    cbn [repeatMatcher clearCaptures foldr endIndex captures];
    unfold unitMatcher at 1 3; cbn [endIndex captures]; rewrite get_append.
  - cbn. rewrite Nat.add_0_r. now destruct lo.
  - rewrite accepts_space. cbn [trimStart String.length].
    destruct (isSpace c) eqn:Hc.
    + destruct (Nat.eqb_spec (S (String.length pre)) (String.length pre)); [lia|].
      rewrite andb_false_r.
      specialize (IH (pre +:+ String c "") (pred lo) fuel).
      rewrite <- append_unit, append_length in IH. cbn [String.length] in IH.
      rewrite Nat.add_1_r in IH. cbn [fmap option_fmap option_map].
      rewrite IH by (cbn in Hfuel; lia).
      pose proof (trimStart_length suf) as Hle.
      replace (S (String.length suf) - String.length (trimStart suf))%nat
        with (S (String.length suf - String.length (trimStart suf))) by lia.
      replace (String.length pre + S (String.length suf - String.length (trimStart suf)))%nat
        with (S (String.length pre) + (String.length suf - String.length (trimStart suf)))%nat
        by lia.
      destruct lo as [|lo]; cbn [Nat.eqb negb pred Nat.leb]; reflexivity.
    + rewrite Nat.sub_diag, Nat.add_0_r. now destruct lo.
Qed.

End Runs.

Lemma whitespaceRun_matchAt (pre suf : string) :
  matchAt (pre +:+ suf) (flags whitespaceRun) (source whitespaceRun)
    (String.length pre)
  = if (1 <=? String.length suf - String.length (trimStart suf))%nat
    then Some (mkState (String.length pre
                        + (String.length suf - String.length (trimStart suf))) ∅)
    else None.
Proof.
  unfold matchAt. cbn [whitespaceRun source flags plus space matcher groupsOf endIndex].
  apply repeat_run.
  - intros c. cbn. apply orb_false_r.
  - unfold inputLength. rewrite append_length. lia.
Qed.

Lemma replace_runs_from (n : nat) : forall (suf pre : string) (fuel : nat),
  (String.length suf <= n)%nat ->
  (String.length suf < fuel)%nat ->
  substitute (pre +:+ suf) " "
    (allMatches whitespaceRun (pre +:+ suf) fuel (String.length pre))
    (String.length pre)
  = collapse suf.
Proof.
  induction n as [|n IH]; intros suf pre fuel Hn Hfuel.
  - destruct suf as [|c suf]; [|cbn in Hn; lia].
    destruct fuel as [|fuel]; [cbn in Hfuel; lia|].
    rewrite allMatches_S, exec_end.
    + cbn [substitute]. rewrite append_empty. apply slice_none.
    + rewrite append_length; cbn; lia.
    + now rewrite whitespaceRun_matchAt.
  - destruct suf as [|c suf].
    { destruct fuel as [|fuel]; [cbn in Hfuel; lia|].
      rewrite allMatches_S, exec_end.
      + cbn [substitute]. rewrite append_empty. apply slice_none.
      + rewrite append_length; cbn; lia.
      + now rewrite whitespaceRun_matchAt. }
    pose proof (get_append pre (String c suf)) as Hget. cbn in Hget.
    assert (Hlen : String.length (pre +:+ String c suf)
                   = (String.length pre + S (String.length suf))%nat)
      by (rewrite append_length; reflexivity).
    pose proof (whitespaceRun_matchAt pre (String c suf)) as Hm.
    pose proof (trimStart_length suf) as Hle.
    cbn [String.length trimStart] in *. unfold collapse. cbn [collapseFrom].
    destruct (isSpace c) eqn:Hc.
    + destruct (trimStart_split suf) as [run Hrun].
      assert (Hk : (S (String.length suf) - String.length (trimStart suf))%nat
                   = S (String.length run)).
      { rewrite Hrun at 1. rewrite append_length. lia. }
      rewrite Hk in Hm. cbn [Nat.leb] in Hm.
      destruct fuel as [|fuel]; [lia|].
      rewrite allMatches_S.
      rewrite (exec_here whitespaceRun (pre +:+ String c suf)
                 (String.length pre) _ ltac:(lia) Hm).
      cbn [whitespaceRun flags global flag_g lastIndex index endIndex].
      destruct (Nat.eqb_spec (String.length pre + S (String.length run))
                             (String.length pre)); [lia|].
      cbn [substitute index lastIndex]. rewrite Nat.leb_refl, slice_none.
      rewrite collapse_in_run.
      specialize (IH (trimStart suf) (pre +:+ String c run) fuel).
      rewrite append_assoc in IH.
      change (String c run +:+ trimStart suf) with (String c (run +:+ trimStart suf)) in IH.
      rewrite <- Hrun, append_length in IH. cbn [String.length] in IH.
      rewrite IH by lia. reflexivity.
    + rewrite Nat.sub_diag in Hm. cbn [Nat.leb] in Hm.
      rewrite allMatches_skip; [| lia | exact Hm].
      rewrite (substitute_skip _ _ _ _ c Hget).
      * specialize (IH suf (pre +:+ String c "") fuel).
        rewrite <- append_unit, append_length in IH. cbn [String.length] in IH.
        rewrite Nat.add_1_r in IH. rewrite IH by lia. reflexivity.
      * apply allMatches_head.
Qed.

Lemma replace_whitespaceRun (s : string) :
  replace s whitespaceRun " " = collapse s.
Proof.
  unfold replace. apply (replace_runs_from (String.length s) s ""); lia.
Qed.

Lemma replace_punctuation (s : string) :
  replace s punctuation " " = mapChars blank s.
Proof.
  rewrite (replace_units punctuation
             (fun c => negb (isWord c || isSpace c)) " "%char).
  - induction s as [|c s IH]; cbn; [reflexivity|]. rewrite IH. f_equal.
    unfold blank. now destruct (isWord c || isSpace c).
  - reflexivity.
  - intros s' i. unfold matchAt. cbn. unfold unitMatcher. cbn.
    destruct (String.get i s') as [ch|]; [|reflexivity].
    now rewrite orb_false_r.
Qed.

(** [normalizeText] unit by unit. *)
Lemma normalizeText_units (s : string) :
  normalizeText s = trim (collapse (mapChars blank (toLowerCase s))).
Proof.
  unfold normalizeText. now rewrite replace_punctuation, replace_whitespaceRun.
Qed.

(** *** The shape of a normalized text *)

Lemma plain_space : plain " " = true.
Proof. reflexivity. Qed.

Lemma plain_blank_lower (c : ascii) :
  isSpace (blank (lowerChar c)) = false -> plain (blank (lowerChar c)) = true.
Proof. destruct c as [[] [] [] [] [] [] [] []]; vm_compute; congruence. Qed.

Lemma plain_lowerChar (c : ascii) : plain c = true -> lowerChar c = c.
Proof. destruct c as [[] [] [] [] [] [] [] []]; vm_compute; congruence. Qed.

Lemma plain_blank (c : ascii) : plain c = true -> blank c = c.
Proof. destruct c as [[] [] [] [] [] [] [] []]; vm_compute; congruence. Qed.

Lemma blank_lower_space (c : ascii) :
  isWord c = false -> isSpace (blank (lowerChar c)) = true.
Proof. destruct c as [[] [] [] [] [] [] [] []]; vm_compute; congruence. Qed.

Lemma mapChars_fixed (p : ascii -> bool) (f : ascii -> ascii) (s : string) :
  (forall c, p c = true -> f c = c) ->
  forallb p (list_ascii_of_string s) = true ->
  mapChars f s = s.
Proof.
  intros Hf. induction s as [|c s IH]; cbn; [reflexivity|].
  intros [Hc Hs]%andb_prop. now rewrite (Hf c Hc), IH.
Qed.

Lemma trimStart_all (p : ascii -> bool) (s : string) :
  forallb p (list_ascii_of_string s) = true ->
  forallb p (list_ascii_of_string (trimStart s)) = true.
Proof.
  induction s as [|c s IH]; cbn; [reflexivity|].
  intros [Hc Hs]%andb_prop. destruct (isSpace c); [auto|]. cbn. now rewrite Hc.
Qed.

Lemma trimEnd_all (p : ascii -> bool) (s : string) :
  forallb p (list_ascii_of_string s) = true ->
  forallb p (list_ascii_of_string (trimEnd s)) = true.
Proof.
  induction s as [|c s IH]; cbn; [reflexivity|].
  intros [Hc Hs]%andb_prop. specialize (IH Hs).
  destruct (trimEnd s) as [|a u].
  - destruct (isSpace c); cbn; [reflexivity|]. now rewrite Hc.
  - cbn [list_ascii_of_string forallb]. now rewrite Hc.
Qed.

Lemma collapse_plain (s : string) (b : bool) :
  forallb plain
    (list_ascii_of_string (collapseFrom b (mapChars blank (toLowerCase s))))
  = true.
Proof.
  revert b. induction s as [|c s IH]; intros b; cbn; [reflexivity|].
  fold (toLowerCase s).
  destruct (isSpace (blank (lowerChar c))) eqn:Hc.
  - destruct b; [apply IH|]. cbn [list_ascii_of_string forallb].
    now rewrite plain_space, IH.
  - cbn [list_ascii_of_string forallb]. now rewrite plain_blank_lower, IH.
Qed.

Lemma collapse_single (s : string) (b : bool) :
  singleSpaced b (collapseFrom b s) = true.
Proof.
  revert b. induction s as [|c s IH]; intros b; cbn; [reflexivity|].
  destruct (isSpace c) eqn:Hc.
  - destruct b; [apply IH|]. cbn. apply IH.
  - cbn. rewrite Hc. apply IH.
Qed.

Lemma single_weaken (s : string) (b : bool) :
  singleSpaced b s = true -> singleSpaced false s = true.
Proof.
  destruct s as [|c s]; cbn; [reflexivity|]. destruct (isSpace c); [|exact id].
  intros [[Hc _]%andb_prop Hs]%andb_prop. now rewrite Hc, Hs.
Qed.

Lemma single_strengthen (s : string) :
  match s with
  | EmptyString => True
  | String c _ => isSpace c = false
  end ->
  singleSpaced false s = true -> singleSpaced true s = true.
Proof. destruct s as [|c s]; cbn; [reflexivity|]. now intros ->. Qed.

Lemma trimStart_single (s : string) (b : bool) :
  singleSpaced b s = true -> singleSpaced false (trimStart s) = true.
Proof.
  revert b. induction s as [|c s IH]; intros b; cbn; [reflexivity|].
  destruct (isSpace c) eqn:Hc.
  - intros [_ Hs]%andb_prop. exact (IH true Hs).
  - cbn. now rewrite Hc.
Qed.

Lemma trimEnd_single (s : string) (b : bool) :
  singleSpaced b s = true -> singleSpaced b (trimEnd s) = true.
Proof.
  revert b. induction s as [|c s IH]; intros b; cbn; [reflexivity|].
  intros H. destruct (trimEnd s) as [|a u] eqn:E.
  - destruct (isSpace c) eqn:Hc; cbn; [reflexivity|]. now rewrite Hc.
  - cbn [singleSpaced]. fold (singleSpaced true (String a u)).
    change (if isSpace a
            then Ascii.eqb a " " && negb true && singleSpaced true u
            else singleSpaced false u) with (singleSpaced true (String a u)).
    change (if isSpace a
            then Ascii.eqb a " " && negb false && singleSpaced true u
            else singleSpaced false u) with (singleSpaced false (String a u)).
    destruct (isSpace c).
    + apply andb_prop in H as [H1 H2]. rewrite H1. exact (IH true H2).
    + exact (IH false H).
Qed.

Lemma single_collapse (s : string) (b : bool) :
  singleSpaced b s = true -> collapseFrom b s = s.
Proof.
  revert b. induction s as [|c s IH]; intros b; cbn; [reflexivity|].
  destruct (isSpace c).
  - intros [[Hc Hb]%andb_prop Hs]%andb_prop.
    apply Ascii.eqb_eq in Hc as ->. destruct b; [discriminate|].
    now rewrite (IH true Hs).
  - intros Hs. now rewrite (IH false Hs).
Qed.

Lemma single_no_double (s : string) (b : bool) :
  singleSpaced b s = true -> includes s "  " = false.
Proof.
  revert b. induction s as [|c s IH]; intros b H; [reflexivity|].
  cbn [includes]. destruct (String.prefix "  " (String c s)) eqn:Hp.
  - exfalso. cbn [String.prefix] in Hp.
    destruct (ascii_dec " " c) as [<-|]; [|discriminate].
    destruct s as [|a s]; cbn [String.prefix] in Hp; [discriminate|].
    destruct (ascii_dec " " a) as [<-|]; [|discriminate].
    destruct b; cbn in H; discriminate.
  - cbn in H. destruct (isSpace c).
    + apply andb_prop in H as [_ H]. exact (IH true H).
    + exact (IH false H).
Qed.

Lemma normalizeText_plain (s : string) :
  forallb plain (list_ascii_of_string (normalizeText s)) = true.
Proof.
  rewrite normalizeText_units. unfold trim, collapse.
  apply trimEnd_all, trimStart_all, collapse_plain.
Qed.

Lemma normalizeText_single (s : string) :
  singleSpaced true (normalizeText s) = true.
Proof.
  rewrite normalizeText_units. unfold trim, collapse.
  apply single_strengthen.
  - apply trimEnd_clean, trimStart_clean.
  - apply trimEnd_single, (trimStart_single _ false), collapse_single.
Qed.

Lemma normalizeText_trimmed (s : string) :
  trim (normalizeText s) = normalizeText s.
Proof. unfold normalizeText. apply trim_idem. Qed.

Lemma normalizeText_fixed (s : string) :
  normalizeText (normalizeText s) = normalizeText s.
Proof.
  rewrite (normalizeText_units (normalizeText s)).
  pose proof (normalizeText_plain s) as Hp.
  unfold toLowerCase.
  rewrite (mapChars_fixed plain lowerChar _ plain_lowerChar Hp).
  rewrite (mapChars_fixed plain blank _ plain_blank Hp).
  unfold collapse.
  rewrite (single_collapse _ false (single_weaken _ _ (normalizeText_single s))).
  apply normalizeText_trimmed.
Qed.

(** *** Units outside [\w] *)

Lemma collapse_blank_unit (a b : string) (c : ascii) (inRun : bool) :
  isWord c = false ->
  collapseFrom inRun (mapChars blank (toLowerCase (a +:+ String c b)))
  = collapseFrom inRun (mapChars blank (toLowerCase (a +:+ String " " b))).
Proof.
  intros Hc. unfold toLowerCase. revert inRun.
  induction a as [|x a IH]; intros inRun.
  - change ("" +:+ String c b) with (String c b).
    change ("" +:+ String " " b) with (String " " b).
    cbn [mapChars collapseFrom].
    rewrite (blank_lower_space c Hc).
    now change (isSpace (blank (lowerChar " "))) with true.
  - change (String x a +:+ String c b) with (String x (a +:+ String c b)).
    change (String x a +:+ String " " b) with (String x (a +:+ String " " b)).
    cbn [mapChars collapseFrom]. now rewrite !IH.
Qed.

Lemma normalizeText_blank_unit (a b : string) (c : ascii) :
  isWord c = false ->
  normalizeText (a +:+ String c b) = normalizeText (a +:+ String " " b).
Proof.
  intros Hc. rewrite !normalizeText_units. unfold collapse.
  now rewrite (collapse_blank_unit a b c false Hc).
Qed.

Lemma containsKeyword_same_normal (a a' keyword : string) :
  normalizeText a = normalizeText a' ->
  containsKeyword a keyword = containsKeyword a' keyword.
Proof. intros H. unfold containsKeyword. now rewrite H. Qed.

Lemma run_same_normal (a a' : string) (kw : gmap string Q) (ks : list string)
    (st : Tally) :
  normalizeText a = normalizeText a' ->
  foldl (evaluateKeyword a kw) st ks = foldl (evaluateKeyword a' kw) st ks.
Proof.
  intros H. revert st. induction ks as [|k ks IH]; intros st; cbn; [reflexivity|].
  rewrite IH. unfold evaluateKeyword.
  now rewrite (containsKeyword_same_normal a a' k H).
Qed.

(** *** The words of a normalized text *)

Lemma trimEnd_tail (c : ascii) (s : string) :
  trimEnd (String c s) = String c s -> trimEnd s = s.
Proof.
  cbn. destruct (trimEnd s) as [|a u] eqn:E.
  - destruct (isSpace c); [discriminate|]. now intros [= <-].
  - now intros [= <-].
Qed.

Lemma splitFrom_words (s cur : string) :
  singleSpaced (String.eqb cur "") s = true ->
  trimEnd s = s ->
  cur <> "" \/ s <> "" ->
  Forall (fun w => w <> "") (splitFrom " " s 0 cur).
Proof.
  revert cur. induction s as [|c s IH]; intros cur Hs Ht Hne.
  - cbn. constructor; [|constructor]. now destruct Hne.
  - cbn [splitFrom String.prefix String.length Nat.sub].
    pose proof (trimEnd_tail c s Ht) as Ht'.
    destruct (ascii_dec " " c) as [<-|Hc].
    + change (isSpace " ") with true in Hs. cbn [singleSpaced] in Hs.
      change (isSpace " ") with true in Hs.
      apply andb_prop in Hs as [[_ Hcur]%andb_prop Hs].
      destruct s as [|a s]; [cbn in Ht; discriminate|].
      change (String.prefix "" (String a s)) with true. cbn iota.
      constructor.
      * intros ->. discriminate.
      * apply IH; [exact Hs|exact Ht'|now right].
    + assert (Hsp : isSpace c = false).
      { cbn [singleSpaced] in Hs. destruct (isSpace c); [|reflexivity].
        apply andb_prop in Hs as [[Heq _]%andb_prop _].
        apply Ascii.eqb_eq in Heq. congruence. }
      cbn [singleSpaced] in Hs. rewrite Hsp in Hs.
      apply IH; [|exact Ht'|left; now destruct cur].
      now replace (String.eqb (cur +:+ String c "") "") with false
        by now destruct cur.
Qed.

(** *** Properties of [normalizeText] *)

(** X22: a normalized text consists of the units [a-z], [0-9], [_] and
    single spaces: no upper-case letter, punctuation mark or unit from
    U+0080 on is left, no two spaces follow each other, and there is no
    space at either end. *)
Theorem normalized_text_shape (text : string) :
  Forall (fun c => c = " "%char \/ (isWord c = true /\ isUpper c = false))
    (list_ascii_of_string (normalizeText text))
  /\ includes (normalizeText text) "  " = false
  /\ trim (normalizeText text) = normalizeText text.
Proof.
  split; [|split].
  - apply Forall_forall. intros c Hc.
    pose proof (normalizeText_plain text) as Hp.
    rewrite forallb_forall in Hp. apply list_elem_of_In in Hc.
    specialize (Hp c Hc). unfold plain in Hp.
    apply orb_prop in Hp as [Hp|Hp].
    + left. now apply Ascii.eqb_eq.
    + right. apply andb_prop in Hp as [Hw Hu]. split; [exact Hw|].
      now destruct (isUpper c).
  - apply (single_no_double _ true), normalizeText_single.
  - apply normalizeText_trimmed.
Qed.

(** X23: normalizing is idempotent, and the matcher gives to the
    normalized response and keyword the verdict it gives to the
    originals. *)
Theorem normalize_is_idempotent (answer keyword : string) :
  normalizeText (normalizeText answer) = normalizeText answer
  /\ containsKeyword (normalizeText answer) (normalizeText keyword)
     = containsKeyword answer keyword.
Proof.
  split.
  - apply normalizeText_fixed.
  - unfold containsKeyword. cbv zeta.
    now rewrite !normalizeText_fixed.
Qed.

(** X24: a unit outside [A-Za-z0-9_] in a response (a punctuation mark,
    a tab or line break, a letter with a diacritic) is graded as a
    space would be in its place. *)
Theorem punctuation_is_graded_as_space (before after : string) (c : ascii)
    (expectedKeywords : list string) (keywordWeightage : gmap string Q)
    (totalPoints : Q) :
  isWord c = false ->
  gradeShortAnswer (before +:+ String c after) expectedKeywords
    keywordWeightage totalPoints
  = gradeShortAnswer (before +:+ String " " after) expectedKeywords
      keywordWeightage totalPoints.
Proof.
  intros Hc. unfold gradeShortAnswer.
  assert (Hempty : forall x, String.eqb (before +:+ String x after) "" = false)
    by (intros x; now destruct before).
  rewrite !Hempty.
  now rewrite (run_same_normal _ _ keywordWeightage expectedKeywords _
                 (normalizeText_blank_unit before after c Hc)).
Qed.

Lemma punctuation_is_graded_as_space_witness :
  isWord "-" = false
  /\ gradeShortAnswer "photo-synthesis" ["photo synthesis"] ∅ 5
     = gradeShortAnswer "photo synthesis" ["photo synthesis"] ∅ 5.
Proof.
  split; [reflexivity|].
  now apply (punctuation_is_graded_as_space "photo" "synthesis" "-").
Defined.

(** X25: the words into which the matcher splits a normalized text are
    not empty, except for the one empty word of a text that normalizes
    to the empty string. *)
Theorem empty_word_only_in_blank_text (text : string) :
  In "" (JSString.split (normalizeText text) " ") <-> normalizeText text = "".
Proof.
  split.
  - intros Hin. destruct (String.eqb_spec (normalizeText text) "") as [|Hne];
      [assumption|exfalso].
    assert (Hw : Forall (fun w => w <> "")
                   (JSString.split (normalizeText text) " ")).
    { apply splitFrom_words.
      - apply normalizeText_single.
      - unfold normalizeText, trim. apply trimEnd_idem.
      - now right. }
    rewrite Forall_forall in Hw. apply list_elem_of_In in Hin.
    now apply (Hw "" Hin).
  - intros ->. now left.
Qed.

End NormalizeFacts.

(** ** The quiz session *)

Module SessionFacts.
Import QuizSession.

Lemma insert_swap_Permutation {T : Type} (l : list T) (j : nat) (x h : T) :
  l !! j = Some x -> x :: <[j := h]> l ≡ₚ h :: l.
Proof.
  revert j. induction l as [|g l IH]; intros [|j] H; cbn in H; try discriminate.
  - injection H as ->. apply perm_swap.
  - cbn. rewrite (perm_swap g x), (IH j H). apply perm_swap.
Qed.

Lemma swap_Permutation {T : Type} (a : list T) (i j : nat) (ai aj : T) :
  a !! i = Some ai -> a !! j = Some aj ->
  <[j := ai]> (<[i := aj]> a) ≡ₚ a.
Proof.
  revert i j. induction a as [|h a IH]; intros [|i] [|j] Hi Hj;
    cbn in Hi, Hj; try discriminate; cbn.
  - now injection Hi as ->.
  - injection Hi as ->. now apply insert_swap_Permutation.
  - injection Hj as ->. now apply insert_swap_Permutation.
  - now rewrite (IH i j Hi Hj).
Qed.

Lemma draw_in_range (r : Q) (i : nat) :
  (0 <= r)%Q -> (r < 1)%Q ->
  (0 <= Qfloor (r * inject_Z (Z.of_nat i + 1)) <= Z.of_nat i)%Z.
Proof.
  intros H0 H1.
  assert (Hpos : (0 < inject_Z (Z.of_nat i + 1))%Q).
  { change 0%Q with (inject_Z 0). rewrite <- Zlt_Qlt. lia. }
  split.
  - change 0%Z with (Qfloor (inject_Z 0)). apply Qfloor_resp_le.
    change (inject_Z 0) with 0%Q. apply Qmult_le_0_compat; [exact H0|].
    now apply Qlt_le_weak.
  - enough (Qfloor (r * inject_Z (Z.of_nat i + 1)) < Z.of_nat i + 1)%Z by lia.
    rewrite Zlt_Qlt.
    apply Qle_lt_trans with (r * inject_Z (Z.of_nat i + 1))%Q;
      [apply Qfloor_le|].
    rewrite <- (Qmult_1_l (inject_Z (Z.of_nat i + 1))) at 2.
    now apply Qmult_lt_compat_r.
Qed.

Lemma shuffleFrom_Permutation {T : Type} (random : nat -> Q) (i : nat) :
  (forall k, (0 <= random k)%Q /\ (random k < 1)%Q) ->
  forall (calls : nat) (shuffled : list T),
    (i < List.length shuffled)%nat ->
    exists result,
      shuffleFrom random i calls shuffled = Some result
      /\ result ≡ₚ shuffled.
Proof.
  intros Hr. induction i as [|i IH]; intros calls shuffled Hlen.
  - now exists shuffled.
  - cbn [shuffleFrom]. unfold swap.
    destruct (Hr calls) as [H0 H1].
    pose proof (draw_in_range (random calls) (S i) H0 H1) as [Hj0 Hj1].
    set (j := Qfloor (random calls * inject_Z (Z.of_nat (S i) + 1))) in *.
    destruct (Z.leb_spec 0 j) as [_|]; [|lia].
    destruct (lookup_lt_is_Some_2 shuffled (S i) Hlen) as [ai Hai].
    destruct (lookup_lt_is_Some_2 shuffled (Z.to_nat j) ltac:(lia)) as [aj Haj].
    rewrite Hai, Haj.
    destruct (IH (S calls) (<[Z.to_nat j := ai]> (<[S i := aj]> shuffled)))
      as (result & Hres & Hperm).
    { rewrite !length_insert. lia. }
    exists result. split; [exact Hres|].
    rewrite Hperm. now apply swap_Permutation.
Qed.

Lemma runTimer_expired (n submits : nat) :
  runTimer n 0 submits = (0%Z, (submits + n)%nat).
Proof.
  revert submits. induction n as [|n IH]; intros submits; cbn; [f_equal; lia|].
  rewrite IH. f_equal. lia.
Qed.

(** X26: for every sequence of results of [Math.random], the shuffle
    returns a permutation of the questions: none is lost, none is
    repeated, and the list given is not changed. *)
Theorem shuffle_is_permutation {T : Type} (random : nat -> Q) (array : list T) :
  (forall k, (0 <= random k)%Q /\ (random k < 1)%Q) ->
  exists shuffled,
    shuffleArray random array = Some shuffled
    /\ shuffled ≡ₚ array
    /\ List.length shuffled = List.length array.
Proof.
  intros Hr. unfold shuffleArray.
  destruct array as [|x array].
  - exists []. now repeat split.
  - destruct (shuffleFrom_Permutation random (List.length (x :: array) - 1) Hr
                0 (x :: array)) as (result & Hres & Hperm).
    { cbn. lia. }
    exists result. split; [exact Hres|]. split; [exact Hperm|].
    now rewrite Hperm.
Qed.

Lemma shuffle_is_permutation_witness :
  (forall k : nat, (0 <= (fun _ => 1 # 2) k)%Q /\ ((fun _ => 1 # 2) k < 1)%Q)
  /\ exists shuffled,
       shuffleArray (fun _ => 1 # 2) ["q1"; "q2"; "q3"] = Some shuffled
       /\ shuffled ≡ₚ ["q1"; "q2"; "q3"]
       /\ List.length shuffled = List.length ["q1"; "q2"; "q3"].
Proof.
  assert (H : forall k : nat,
             (0 <= (fun _ => 1 # 2) k)%Q /\ ((fun _ => 1 # 2) k < 1)%Q).
  { intros k. split; [discriminate|reflexivity]. }
  split; [exact H|]. exact (shuffle_is_permutation _ _ H).
Defined.

(** X27: started at [t >= 1] seconds the timer shows [max 0 (t - n)]
    after [n] seconds: it never goes below zero, and
    [handleSubmitQuiz] is called for the first time at second [t], and
    again at every second after it. *)
Theorem timer_counts_down (t : Z) (n : nat) :
  (1 <= t)%Z ->
  runTimer n t 0 = (Z.max 0 (t - Z.of_nat n), (n - Z.to_nat (t - 1))%nat).
Proof.
  intros Ht.
  enough (H : forall submits,
             runTimer n t submits
             = (Z.max 0 (t - Z.of_nat n),
                (submits + (n - Z.to_nat (t - 1)))%nat)) by exact (H 0%nat).
  revert t Ht. induction n as [|n IH]; intros t Ht submits.
  - cbn. f_equal; lia.
  - cbn [runTimer]. unfold timerTick. destruct (Z.leb_spec t 1).
    + assert (t = 1%Z) as -> by lia. rewrite runTimer_expired. f_equal; lia.
    + rewrite IH by lia. f_equal; lia.
Qed.

Lemma timer_counts_down_witness :
  (1 <= 3)%Z
  /\ runTimer 5 3 0 = (Z.max 0 (3 - Z.of_nat 5), (5 - Z.to_nat (3 - 1))%nat).
Proof.
  split; [lia|]. apply timer_counts_down. lia.
Defined.

End SessionFacts.
